(** * Textract document processor: block-graph reconstruction

    A shallow embedding of [lambda_function.py]: the three extractors
    [extract_text], [extract_forms], [extract_tables] and their helpers
    [find_value_block] and [get_text], with the properties of the
    reconstruction they perform.

    Modelling conventions.
    - A Textract block is a Python dict.  The keys ['Id'] and ['BlockType']
      of a block and ['Type'] and ['Ids'] of a relationship are always
      there; ['Text'], ['EntityTypes'], ['RowIndex'], ['ColumnIndex'] and
      ['Relationships'] may be missing, which is [None] below.
    - [d['k']] on a missing key raises [KeyError]: fallible code lives in
      the [result] monad.
    - A [str] is a [string]; a character stands for its code point, in the
      range U+0000..U+00FF.
    - [block_map] and [value_map] are only looked up: they are [gmap]s.
      [key_map] is iterated, so it keeps the insertion order of a Python
      dict.  [rows] is read through [sorted(...)] only: a [gmap] again. *)

From Stdlib Require Import ZArith.
From stdpp Require Import gmap strings list fin_maps sorting.

Local Open Scope Z_scope.

(** ** Exceptions *)

Inductive error : Type :=
| KeyError (key : string).

Inductive result (A : Type) : Type :=
| Ok (a : A)
| Raise (e : error).
Arguments Ok {A} a.
Arguments Raise {A} e.

#[global] Instance result_ret : MRet result := fun A a => Ok a.
#[global] Instance result_bind : MBind result := fun A B f m =>
  match m with
  | Ok a => f a
  | Raise e => Raise e
  end.

(** [d[key]] where the entry may be missing. *)
Definition getitem {A} (key : string) (o : option A) : result A :=
  match o with
  | Some a => Ok a
  | None => Raise (KeyError key)
  end.

(** [for x in l: s = body(s, x)], stopping at the first exception. *)
Fixpoint for_each {A S} (body : S → A → result S) (s : S) (l : list A)
  : result S :=
  match l with
  | [] => Ok s
  | x :: l' => s' ← body s x; for_each body s' l'
  end.

(** ** Blocks *)

(** [Type_] is the key ['Type']. *)
Record relationship : Type := Relationship {
  Type_ : string;
  Ids : list string
}.

Record block : Type := Block {
  Id : string;
  BlockType : string;
  Text : option string;
  EntityTypes : option (list string);
  RowIndex : option Z;
  ColumnIndex : option Z;
  Relationships : option (list relationship)
}.

(** ** Strings *)

Definition newline : string := String (Ascii.ascii_of_N 10) "".

(** [sep.join(l)] *)
Fixpoint join (sep : string) (l : list string) : string :=
  match l with
  | [] => ""
  | [x] => x
  | x :: l' => x +:+ sep +:+ join sep l'
  end.

(** The characters [str.strip()] removes, among U+0000..U+00FF. *)
Definition is_space (c : Ascii.ascii) : bool :=
  let n := Ascii.N_of_ascii c in
  ((9 <=? n) && (n <=? 13) || (28 <=? n) && (n <=? 32)
   || (n =? 133) || (n =? 160))%N.

Fixpoint lstrip (s : string) : string :=
  match s with
  | "" => ""
  | String c s' => if is_space c then lstrip s' else s
  end.

Fixpoint rstrip (s : string) : string :=
  match s with
  | "" => ""
  | String c s' =>
      match rstrip s' with
      | "" => if is_space c then "" else String c ""
      | r => String c r
      end
  end.

(** [s.strip()] *)
Definition strip (s : string) : string := rstrip (lstrip s).

(** Truth value of a [str]. *)
Definition nonempty (s : string) : bool :=
  match s with
  | "" => false
  | _ => true
  end.

(** ** [extract_text] *)

Definition extract_text_step (text_blocks : list string) (b : block)
  : result (list string) :=
  if String.eqb (BlockType b) "LINE" then
    t ← getitem "Text" (Text b);
    mret (text_blocks ++ [t])
  else mret text_blocks.

Definition extract_text (blocks : list block) : result string :=
  text_blocks ← for_each extract_text_step [] blocks;
  mret (join newline text_blocks).

(** ** [find_value_block] and [get_text] *)

Fixpoint find_value_id (ids : list string) (value_map : gmap string block)
  : option block :=
  match ids with
  | [] => None
  | value_id :: ids' =>
      match value_map !! value_id with
      | Some v => Some v
      | None => find_value_id ids' value_map
      end
  end.

Fixpoint find_value_rels (rels : list relationship)
    (value_map : gmap string block) : option block :=
  match rels with
  | [] => None
  | r :: rels' =>
      if String.eqb (Type_ r) "VALUE" then
        match find_value_id (Ids r) value_map with
        | Some v => Some v
        | None => find_value_rels rels' value_map
        end
      else find_value_rels rels' value_map
  end.

Definition find_value_block (key_block : block)
    (value_map : gmap string block) : option block :=
  match Relationships key_block with
  | Some rels => find_value_rels rels value_map
  | None => None
  end.

(** The body of the innermost loop of [get_text]. *)
Definition get_text_id (block_map : gmap string block) (text : string)
    (child_id : string) : result string :=
  match block_map !! child_id with
  | Some word =>
      if String.eqb (BlockType word) "WORD" then
        t ← getitem "Text" (Text word);
        mret (text +:+ t +:+ " ")
      else mret text
  | None => mret text
  end.

Definition get_text_rel (block_map : gmap string block) (text : string)
    (r : relationship) : result string :=
  if String.eqb (Type_ r) "CHILD" then
    for_each (get_text_id block_map) text (Ids r)
  else mret text.

Definition get_text (b : block) (block_map : gmap string block)
  : result string :=
  text ← match Relationships b with
         | Some rels => for_each (get_text_rel block_map) "" rels
         | None => mret ""
         end;
  mret (strip text).

(** ** [extract_forms] *)

(** [d[k] = v] on a dict that is iterated later: a key already there keeps
    its place. *)
Fixpoint od_insert {V} (k : string) (v : V) (d : list (string * V))
  : list (string * V) :=
  match d with
  | [] => [(k, v)]
  | (k', v') :: d' =>
      if String.eqb k' k then (k, v) :: d' else (k', v') :: od_insert k v d'
  end.

Record index : Type := Index {
  key_map : list (string * block);
  value_map : gmap string block;
  block_map : gmap string block
}.

Definition empty_index : index := Index [] ∅ ∅.

(** The body of the first loop of [extract_forms]. *)
Definition index_block (ix : index) (b : block) : result index :=
  let block_id := Id b in
  let bm := <[block_id := b]> (block_map ix) in
  if String.eqb (BlockType b) "KEY_VALUE_SET" then
    roles ← getitem "EntityTypes" (EntityTypes b);
    if bool_decide ("KEY" ∈ roles) then
      mret (Index (od_insert block_id b (key_map ix)) (value_map ix) bm)
    else
      mret (Index (key_map ix) (<[block_id := b]> (value_map ix)) bm)
  else mret (Index (key_map ix) (value_map ix) bm).

Definition index_blocks (blocks : list block) : result index :=
  for_each index_block empty_index blocks.

(** The index of a collection that can be indexed. *)
Definition index_of (blocks : list block) : index :=
  match index_blocks blocks with
  | Ok ix => ix
  | Raise _ => empty_index
  end.

(** What one key block resolves to: its text and the text of its value. *)
Definition form_pair (ix : index) (key_block : block)
  : result (string * string) :=
  let value_block := find_value_block key_block (value_map ix) in
  key_text ← get_text key_block (block_map ix);
  value_text ← match value_block with
               | Some vb => get_text vb (block_map ix)
               | None => mret ""
               end;
  mret (key_text, value_text).

(** The body of the second loop of [extract_forms]. *)
Definition forms_step (ix : index) (forms : gmap string string)
    (item : string * block) : result (gmap string string) :=
  '(key_text, value_text) ← form_pair ix item.2;
  if nonempty key_text && nonempty value_text then
    mret (<[key_text := value_text]> forms)
  else mret forms.

Definition extract_forms (blocks : list block)
  : result (gmap string string) :=
  ix ← index_blocks blocks;
  for_each (forms_step ix) ∅ (key_map ix).

(** ** [extract_tables] *)

(** [next((b for b in blocks if b['Id'] == word_id), None)] *)
Definition find_block (blocks : list block) (word_id : string)
  : option block :=
  List.find (λ b, String.eqb (Id b) word_id) blocks.

Definition cell_text_id (blocks : list block) (cell_text : string)
    (word_id : string) : result string :=
  match find_block blocks word_id with
  | Some word =>
      if String.eqb (BlockType word) "WORD" then
        t ← getitem "Text" (Text word);
        mret (cell_text +:+ t +:+ " ")
      else mret cell_text
  | None => mret cell_text
  end.

Definition cell_text_rel (blocks : list block) (cell_text : string)
    (rel : relationship) : result string :=
  if String.eqb (Type_ rel) "CHILD" then
    for_each (cell_text_id blocks) cell_text (Ids rel)
  else mret cell_text.

(** The text of a cell, before [strip]. *)
Definition cell_text_of (blocks : list block) (cell : block)
  : result string :=
  match Relationships cell with
  | Some rels => for_each (cell_text_rel blocks) "" rels
  | None => mret ""
  end.

(** The body of [for cell in cells]. *)
Definition rows_step (blocks : list block) (rows : gmap Z (gmap Z string))
    (cell : block) : result (gmap Z (gmap Z string)) :=
  if String.eqb (BlockType cell) "CELL" then
    let row_index := default 1 (RowIndex cell) in
    let col_index := default 1 (ColumnIndex cell) in
    let rows :=
      match rows !! row_index with
      | None => <[row_index := ∅]> rows
      | Some _ => rows
      end in
    cell_text ← cell_text_of blocks cell;
    mret (<[row_index :=
              <[col_index := strip cell_text]> (default ∅ (rows !! row_index))]>
            rows)
  else mret rows.

(** [sorted(d.keys())] *)
Definition sorted_keys {V} (d : gmap Z V) : list Z :=
  merge_sort Z.le (map_to_list d).*1.

(** [[row.get(col, '') for col in sorted(row.keys())]] *)
Definition emit_row (row : gmap Z string) : list string :=
  (λ col, default "" (row !! col)) <$> sorted_keys row.

(** [for row_idx in sorted(rows.keys()): table.append(...)], as the rows
    appended. *)
Definition emit_rows (rows : gmap Z (gmap Z string)) : list (list string) :=
  (λ row_idx, emit_row (default ∅ (rows !! row_idx))) <$> sorted_keys rows.

(** [[block for block in blocks if block['Id'] in cell_ids]] *)
Definition cells_of (blocks : list block) (cell_ids : list string)
  : list block :=
  List.filter (λ b, bool_decide (Id b ∈ cell_ids)) blocks.

(** The body of [for relationship in table_block['Relationships']]. *)
Definition table_rel (blocks : list block) (table : list (list string))
    (rel : relationship) : result (list (list string)) :=
  if String.eqb (Type_ rel) "CHILD" then
    let cells := cells_of blocks (Ids rel) in
    rows ← for_each (rows_step blocks) ∅ cells;
    mret (table ++ emit_rows rows)
  else mret table.

(** The grid built for one table block. *)
Definition table_of (blocks : list block) (table_block : block)
  : result (list (list string)) :=
  match Relationships table_block with
  | Some rels => for_each (table_rel blocks) [] rels
  | None => mret []
  end.

(** The body of [for table_block in table_blocks]. *)
Definition tables_step (blocks : list block)
    (tables : list (list (list string))) (table_block : block)
  : result (list (list (list string))) :=
  table ← table_of blocks table_block;
  match table with
  | [] => mret tables
  | _ => mret (tables ++ [table])
  end.

Definition table_blocks (blocks : list block) : list block :=
  List.filter (λ b, String.eqb (BlockType b) "TABLE") blocks.

(** The loop of [extract_tables] over a list of table blocks. *)
Definition extract_tables_from (blocks : list block) (tbs : list block)
  : result (list (list (list string))) :=
  for_each (tables_step blocks) [] tbs.

Definition extract_tables (blocks : list block)
  : result (list (list (list string))) :=
  extract_tables_from blocks (table_blocks blocks).

(** ** Building blocks for examples *)

Definition child (ids : list string) : relationship := Relationship "CHILD" ids.
Definition value (ids : list string) : relationship := Relationship "VALUE" ids.

Definition line (id text : string) : block :=
  Block id "LINE" (Some text) None None None None.
Definition word (id text : string) : block :=
  Block id "WORD" (Some text) None None None None.
Definition key_block (id : string) (rels : list relationship) : block :=
  Block id "KEY_VALUE_SET" None (Some ["KEY"]) None None (Some rels).
Definition value_block (id : string) (rels : list relationship) : block :=
  Block id "KEY_VALUE_SET" None (Some ["VALUE"]) None None (Some rels).
Definition table (id : string) (rels : list relationship) : block :=
  Block id "TABLE" None None None None (Some rels).
Definition cell (id : string) (r c : Z) (rels : list relationship) : block :=
  Block id "CELL" None None (Some r) (Some c) (Some rels).

Definition invoice : list block :=
  [ line "l1" "Invoice #123";
    key_block "k1" [child ["w1"]; value ["id2"]];
    value_block "id2" [child ["w2"]];
    word "w1" "Total";
    word "w2" "42" ].

Definition grid3 : list block :=
  [ table "t" [child ["a"; "b"; "c"]];
    cell "a" 1 1 [child ["wa"]];
    cell "b" 1 2 [child ["wb"]];
    cell "c" 2 1 [child ["wc"]];
    word "wa" "A"; word "wb" "B"; word "wc" "C" ].

(** The end-to-end scenario: one line, one key with its value, no table. *)
Example invoice_reconstruction :
  extract_text invoice = Ok "Invoice #123"
  ∧ extract_forms invoice = Ok {[ "Total" := "42" ]}
  ∧ extract_tables invoice = Ok [].
Proof. repeat split; vm_compute; reflexivity. Qed.

(** ** Loops *)

Section for_each.
Context {A S : Type}.
Implicit Types (body : S → A → result S) (s : S) (l : list A).

Lemma for_each_app body s l1 l2 :
  for_each body s (l1 ++ l2) = s' ← for_each body s l1; for_each body s' l2.
Proof.
  revert s. induction l1 as [|x l1 IH]; intros s; simpl; [done|].
  destruct (body s x) as [s'|e]; simpl; [apply IH|done].
Qed.

Lemma for_each_ext body1 body2 s l :
  (∀ s x, x ∈ l → body1 s x = body2 s x) →
  for_each body1 s l = for_each body2 s l.
Proof.
  revert s. induction l as [|x l IH]; intros s Hb; simpl; [done|].
  rewrite Hb by left. destruct (body2 s x); simpl; [|done].
  apply IH. intros ???. apply Hb. by right.
Qed.

(** An invariant of the state that every step keeps holds at the end. *)
Lemma for_each_invariant (P : S → Prop) body s l s' :
  (∀ s x s', x ∈ l → P s → body s x = Ok s' → P s') →
  P s → for_each body s l = Ok s' → P s'.
Proof.
  revert s. induction l as [|x l IH]; intros s Hstep Hs; simpl.
  - by intros [= <-].
  - destruct (body s x) as [s1|e] eqn:Hx; simpl; [|done].
    apply IH; [|eapply Hstep; [left|done..]].
    intros ?????. eapply Hstep; [by right|done..].
Qed.

(** Blocks the body passes over can be left out of the loop. *)
Lemma for_each_filter (keep : A → bool) body s l :
  (∀ s x, keep x = false → body s x = Ok s) →
  for_each body s l = for_each body s (List.filter keep l).
Proof.
  intros Hskip. revert s. induction l as [|x l IH]; intros s; simpl; [done|].
  destruct (keep x) eqn:Hk; simpl.
  - destruct (body s x); simpl; [apply IH|done].
  - rewrite Hskip by done. apply IH.
Qed.
End for_each.

(** A nested loop is one loop over the concatenation. *)
Lemma for_each_flat {A B S} (body : S → B → result S) (ids : A → list B)
    (s : S) (l : list A) :
  for_each (λ s x, for_each body s (ids x)) s l
  = for_each body s (flat_map ids l).
Proof.
  revert s. induction l as [|x l IH]; intros s; simpl; [done|].
  rewrite for_each_app. destruct (for_each body s (ids x)); simpl; [apply IH|done].
Qed.

Lemma filter_twice {A} (f : A → bool) (l : list A) :
  List.filter f (List.filter f l) = List.filter f l.
Proof.
  induction l as [|x l IH]; [done|]. cbn.
  destruct (f x) eqn:Hx; cbn; [rewrite Hx; by f_equal|done].
Qed.

(** ** Text assembly *)

Definition is_line (b : block) : bool := String.eqb (BlockType b) "LINE".

(** The LINE blocks of a collection, in collection order. *)
Definition line_blocks (blocks : list block) : list block :=
  List.filter is_line blocks.

Lemma extract_text_step_eq acc b :
  extract_text_step acc b
  = if is_line b then t ← getitem "Text" (Text b); Ok (acc ++ [t]) else Ok acc.
Proof. reflexivity. Qed.

Lemma extract_text_loop blocks acc ts :
  Text <$> line_blocks blocks = Some <$> ts →
  for_each extract_text_step acc blocks = Ok (acc ++ ts).
Proof.
  revert acc ts. induction blocks as [|b blocks IH]; intros acc ts.
  - destruct ts; [|done]. intros _. cbn. by rewrite app_nil_r.
  - cbn [for_each line_blocks List.filter]. rewrite extract_text_step_eq.
    destruct (is_line b).
    + destruct ts as [|t ts]; [done|]. intros [= -> Hts]. cbn.
      rewrite (IH _ ts Hts). by rewrite <- app_assoc.
    + cbn. apply IH.
Qed.

Lemma extract_text_raises blocks acc :
  Exists (λ b, BlockType b = "LINE" ∧ Text b = None) blocks →
  for_each extract_text_step acc blocks = Raise (KeyError "Text").
Proof.
  revert acc. induction blocks as [|b blocks IH]; intros acc Hex.
  - by apply Exists_nil in Hex.
  - cbn [for_each]. rewrite extract_text_step_eq. unfold is_line.
    destruct (String.eqb_spec (BlockType b) "LINE") as [Hl|Hl].
    + destruct (Text b) as [t|] eqn:Ht; cbn; [|done].
      apply IH. apply Exists_cons in Hex as [[_ ?]|?]; [congruence|done].
    + cbn. apply IH. apply Exists_cons in Hex as [[? _]|?]; [done|done].
Qed.

Definition linefeed : Ascii.ascii := Ascii.ascii_of_N 10.

(** The text as the specification words it:
    [L1.text + "\n" + L2.text + ... + Ln.text]. *)
Fixpoint lines_text (ts : list string) : string :=
  match ts with
  | [] => ""
  | [t] => t
  | t :: ts' => t +:+ String linefeed (lines_text ts')
  end.

Lemma join_newline (ts : list string) : join newline ts = lines_text ts.
Proof.
  induction ts as [|t ts IH]; [done|]. destruct ts as [|t' ts]; [done|].
  change (join newline (t :: t' :: ts))
    with (t +:+ String linefeed (join newline (t' :: ts))).
  by rewrite IH.
Qed.

(** C1. The assembled text is the texts of the LINE blocks, in collection
    order, with one line feed between two of them and none before the first
    or after the last; blocks of other types, wherever they stand between
    the lines, change nothing. *)
Theorem extract_text_lines (blocks : list block) (ts : list string) :
  Text <$> line_blocks blocks = Some <$> ts →
  extract_text blocks = Ok (lines_text ts)
  ∧ extract_text (line_blocks blocks) = extract_text blocks.
Proof.
  intros Hts. unfold extract_text.
  rewrite (extract_text_loop blocks [] ts Hts).
  rewrite (extract_text_loop (line_blocks blocks) [] ts).
  - cbn. by rewrite join_newline.
  - unfold line_blocks. by rewrite filter_twice.
Qed.

Definition three_lines : list block :=
  [ word "w0" "x"; line "a" "one"; word "w1" "y"; table "t" [child ["w1"]];
    line "b" ""; line "c" "two"; word "w2" "z" ].

Lemma extract_text_lines_witness :
  extract_text three_lines
  = Ok ("one" +:+ String (Ascii.ascii_of_N 10)
          ("" +:+ String (Ascii.ascii_of_N 10) "two"))
  ∧ extract_text (line_blocks three_lines) = extract_text three_lines.
Proof. apply (extract_text_lines three_lines ["one"; ""; "two"]). reflexivity. Defined.

(** ** Stripping *)

Lemma append_cons c (s t : string) : String c s +:+ t = String c (s +:+ t).
Proof. reflexivity. Qed.

Lemma append_empty_l (s : string) : "" +:+ s = s.
Proof. reflexivity. Qed.

Lemma append_assoc (s1 s2 s3 : string) : (s1 +:+ s2) +:+ s3 = s1 +:+ s2 +:+ s3.
Proof.
  induction s1 as [|c s1 IH]; [done|]. rewrite !append_cons. by f_equal.
Qed.

Lemma append_empty_r (s : string) : s +:+ "" = s.
Proof. induction s as [|c s IH]; [done|]. rewrite append_cons. by f_equal. Qed.

Lemma rstrip_append_space (s : string) : rstrip (s +:+ " ") = rstrip s.
Proof.
  induction s as [|c s IH]; [done|]. rewrite append_cons. cbn [rstrip].
  by rewrite IH.
Qed.

Lemma strip_append_space (s : string) : strip (s +:+ " ") = strip s.
Proof.
  unfold strip. induction s as [|c s IH]; [done|].
  rewrite append_cons. cbn [lstrip]. destruct (is_space c); [done|].
  rewrite <- append_cons. apply rstrip_append_space.
Qed.

Definition starts_with_space (s : string) : bool :=
  match s with
  | "" => false
  | String c _ => is_space c
  end.

Fixpoint ends_with_space (s : string) : bool :=
  match s with
  | "" => false
  | String c "" => is_space c
  | String _ s' => ends_with_space s'
  end.

(** No whitespace at either end. *)
Definition trimmed (s : string) : Prop :=
  starts_with_space s = false ∧ ends_with_space s = false.

Lemma lstrip_head (s : string) : starts_with_space (lstrip s) = false.
Proof.
  induction s as [|c s IH]; [done|]. cbn [lstrip].
  by destruct (is_space c) eqn:Hc; [|cbn].
Qed.

Lemma rstrip_tail (s : string) : ends_with_space (rstrip s) = false.
Proof.
  induction s as [|c s IH]; [done|]. cbn [rstrip].
  destruct (rstrip s) as [|a r]; [by destruct (is_space c) eqn:Hc; [|cbn]|].
  done.
Qed.

Lemma rstrip_head (s : string) :
  starts_with_space s = false → starts_with_space (rstrip s) = false.
Proof.
  destruct s as [|c s]; [done|]. cbn. intros Hc.
  destruct (rstrip s); by rewrite ?Hc.
Qed.

Lemma strip_trimmed (s : string) : trimmed (strip s).
Proof. split; [apply rstrip_head, lstrip_head|apply rstrip_tail]. Qed.

Fixpoint all_space (s : string) : bool :=
  match s with
  | "" => true
  | String c s' => is_space c && all_space s'
  end.

(** [t] is [s] with the whitespace at its two ends taken off: [t] has none
    at either end, and [s] is [t] between two runs of whitespace. *)
Definition trimmed_from (s t : string) : Prop :=
  trimmed t
  ∧ ∃ l r, s = l +:+ t +:+ r ∧ all_space l = true ∧ all_space r = true.

Lemma lstrip_split (s : string) :
  ∃ l, s = l +:+ lstrip s ∧ all_space l = true.
Proof.
  induction s as [|c s (l & Hs & Hl)]; [by exists ""|]. cbn [lstrip].
  destruct (is_space c) eqn:Hc; [|by exists ""].
  exists (String c l). rewrite append_cons, <- Hs. cbn. by rewrite Hc, Hl.
Qed.

Lemma rstrip_split (s : string) :
  ∃ r, s = rstrip s +:+ r ∧ all_space r = true.
Proof.
  induction s as [|c s (r & Hs & Hr)]; [by exists ""|]. cbn [rstrip].
  destruct (rstrip s) as [|a x] eqn:Hx.
  - rewrite append_empty_l in Hs. subst r.
    destruct (is_space c) eqn:Hc.
    + exists (String c s). split; [done|]. cbn. by rewrite Hc, Hr.
    + by exists s.
  - exists r. split; [|done]. rewrite append_cons. by f_equal.
Qed.

Lemma strip_trimmed_from (s : string) : trimmed_from s (strip s).
Proof.
  split; [apply strip_trimmed|].
  destruct (lstrip_split s) as (l & Hl & ?).
  destruct (rstrip_split (lstrip s)) as (r & Hr & ?).
  exists l, r. split; [|done]. unfold strip. by rewrite <- Hr.
Qed.

Definition space : Ascii.ascii := Ascii.ascii_of_N 32.

(** The words with one space between two of them, as the specification
    words it. *)
Fixpoint words_text (ts : list string) : string :=
  match ts with
  | [] => ""
  | [t] => t
  | t :: ts' => t +:+ String space (words_text ts')
  end.

Lemma join_space (ts : list string) : join " " ts = words_text ts.
Proof.
  induction ts as [|t ts IH]; [done|]. destruct ts as [|t' ts]; [done|].
  change (join " " (t :: t' :: ts))
    with (t +:+ String space (join " " (t' :: ts))).
  by rewrite IH.
Qed.

(** What the loops of [get_text] leave in [text] after the words [ts]. *)
Definition spaced (ts : list string) : string :=
  foldr (λ t r, t +:+ " " +:+ r) "" ts.

Lemma spaced_join (t : string) (ts : list string) :
  spaced (t :: ts) = join " " (t :: ts) +:+ " ".
Proof.
  revert t. induction ts as [|t' ts IH]; intros t.
  - cbn. by rewrite append_empty_r.
  - change (spaced (t :: t' :: ts)) with (t +:+ " " +:+ spaced (t' :: ts)).
    rewrite IH. change (join " " (t :: t' :: ts))
      with (t +:+ " " +:+ join " " (t' :: ts)).
    by rewrite !append_assoc.
Qed.

Lemma strip_spaced (ts : list string) : strip (spaced ts) = strip (join " " ts).
Proof. destruct ts as [|t ts]; [done|]. by rewrite spaced_join, strip_append_space. Qed.

(** ** Text of a block *)

Definition is_word (b : block) : bool := String.eqb (BlockType b) "WORD".

(** The ids a block lists under its CHILD relationships, in listed order. *)
Definition child_ids (b : block) : list string :=
  match Relationships b with
  | Some rels =>
      flat_map (λ r, if String.eqb (Type_ r) "CHILD" then Ids r else []) rels
  | None => []
  end.

(** The WORD blocks among the blocks that [ids] resolve to under the
    lookup [lk]; ids that resolve to nothing drop out. *)
Definition words_of (lk : string → option block) (ids : list string)
  : list block :=
  List.filter is_word (omap lk ids).

Section collect.
Variable lk : string → option block.

(** The common shape of the innermost loop bodies of [get_text] and of
    the cell text of [extract_tables]. *)
Definition collect_id (text : string) (id : string) : result string :=
  match lk id with
  | Some word =>
      if is_word word then
        t ← getitem "Text" (Text word); Ok (text +:+ t +:+ " ")
      else Ok text
  | None => Ok text
  end.

Lemma collect_id_eq text id :
  collect_id text id
  = match lk id with
    | Some word =>
        if is_word word then
          t ← getitem "Text" (Text word); Ok (text +:+ t +:+ " ")
        else Ok text
    | None => Ok text
    end.
Proof. reflexivity. Qed.

Lemma collect_words ids acc ts :
  Text <$> words_of lk ids = Some <$> ts →
  for_each collect_id acc ids = Ok (acc +:+ spaced ts).
Proof.
  revert acc ts. induction ids as [|id ids IH]; intros acc ts.
  - destruct ts; [|done]. intros _. cbn. by rewrite append_empty_r.
  - cbn [for_each]. rewrite collect_id_eq. unfold words_of.
    cbn [omap list_omap].
    destruct (lk id) as [w|]; [|apply IH].
    cbn [List.filter]. destruct (is_word w); [|apply IH].
    destruct ts as [|t ts]; [done|]. intros [= -> Hts].
    cbn [getitem mbind result_bind].
    rewrite (IH _ ts Hts). cbn [spaced foldr]. by rewrite !append_assoc.
Qed.

Lemma collect_rels (rels : list relationship) acc :
  for_each (λ text r, if String.eqb (Type_ r) "CHILD"
                      then for_each collect_id text (Ids r) else Ok text)
           acc rels
  = for_each collect_id acc
      (flat_map (λ r, if String.eqb (Type_ r) "CHILD" then Ids r else []) rels).
Proof.
  rewrite <- for_each_flat. apply for_each_ext. intros text r _.
  by destruct (String.eqb (Type_ r) "CHILD").
Qed.
End collect.

Lemma get_text_collect (b : block) (bm : gmap string block) :
  get_text b bm
  = text ← for_each (collect_id (λ id, bm !! id)) "" (child_ids b);
    Ok (strip text).
Proof.
  unfold get_text, child_ids. destruct (Relationships b) as [rels|]; [|done].
  by rewrite <- collect_rels.
Qed.

Lemma cell_text_collect (blocks : list block) (cell : block) :
  cell_text_of blocks cell
  = for_each (collect_id (find_block blocks)) "" (child_ids cell).
Proof.
  unfold cell_text_of, child_ids. destruct (Relationships cell) as [rels|]; [|done].
  by rewrite <- collect_rels.
Qed.

Lemma rows_step_cell (blocks : list block) (rows : gmap Z (gmap Z string))
    (c : block) (text : string) :
  BlockType c = "CELL" →
  cell_text_of blocks c = Ok text →
  ∃ rows', rows_step blocks rows c = Ok rows'
    ∧ rows' !! default 1 (RowIndex c) ≫= (.!! default 1 (ColumnIndex c))
      = Some (strip text).
Proof.
  intros Hc Ht. unfold rows_step. rewrite Hc, Ht. cbn.
  eexists. split; [done|]. rewrite lookup_insert_eq. cbn.
  by rewrite lookup_insert_eq.
Qed.

(** The display text as the specification words it: the words joined by
    one space, trailing whitespace trimmed. *)
Definition display_text_spec (ts : list string) : string :=
  rstrip (join " " ts).

Definition padded_key : list block :=
  [ key_block "k" [child ["w0"; "w1"]]; word "w0" ""; word "w1" "a" ].

(** C5, as stated, fails: [strip] trims at both ends, so a first word
    whose text is empty leaves no leading space behind. *)
Lemma display_text_leading_space :
  let b := key_block "k" [child ["w0"; "w1"]] in
  let bm := block_map (index_of padded_key) in
  Text <$> words_of (λ id, bm !! id) (child_ids b) = Some <$> [""; "a"]
  ∧ get_text b bm = Ok "a"
  ∧ display_text_spec [""; "a"] = " a"
  ∧ get_text b bm ≠ Ok (display_text_spec [""; "a"]).
Proof. cbv zeta. repeat split; [vm_compute; reflexivity..|vm_compute; discriminate]. Qed.

(** C5 (amended). The display text of a key, value or cell block is the
    texts of the WORD blocks its CHILD relationships resolve to, in listed
    order, joined by one space, with whitespace trimmed at both ends;
    children of other types add nothing.  A key or value block resolves
    ids through [block_map], a cell through the first block of the
    collection with that id. *)
Theorem display_text_words (b : block) (bm : gmap string block)
    (blocks : list block) (rows : gmap Z (gmap Z string)) (ts : list string) :
  (Text <$> words_of (λ id, bm !! id) (child_ids b) = Some <$> ts →
   get_text b bm = Ok (strip (join " " ts))
   ∧ ∃ t, get_text b bm = Ok t ∧ trimmed_from (words_text ts) t)
  ∧ (Text <$> words_of (find_block blocks) (child_ids b) = Some <$> ts →
     BlockType b = "CELL" →
     ∃ rows' t, rows_step blocks rows b = Ok rows'
       ∧ rows' !! default 1 (RowIndex b) ≫= (.!! default 1 (ColumnIndex b))
         = Some t
       ∧ t = strip (join " " ts)
       ∧ trimmed_from (words_text ts) t).
Proof.
  split.
  - intros Hts.
    assert (get_text b bm = Ok (strip (join " " ts))) as Hget.
    { rewrite get_text_collect. rewrite (collect_words _ _ "" ts Hts). cbn.
      by rewrite append_empty_l, strip_spaced. }
    split; [done|]. exists (strip (join " " ts)). split; [done|].
    rewrite <- join_space. apply strip_trimmed_from.
  - intros Hts Hc.
    destruct (rows_step_cell blocks rows b (spaced ts) Hc) as (rows' & ? & Hl).
    { rewrite cell_text_collect. by rewrite (collect_words _ _ "" ts Hts). }
    exists rows', (strip (join " " ts)). split; [done|].
    split; [by rewrite <- strip_spaced|]. split; [done|].
    rewrite <- join_space. apply strip_trimmed_from.
Qed.

(** A key and a cell whose children are, in listed order and over two
    CHILD relationships, a padded word, a selection element, an id that no
    block bears, and two more words. *)
Definition wordy : list block :=
  [ key_block "k" [child ["w0"; "sel"; "gone"; "w1"]; value ["v"]; child ["w2"]];
    cell "c" 3 2 [child ["w0"; "sel"; "gone"; "w1"]; child ["w2"]];
    word "w2" "due "; word "w1" "amount";
    Block "sel" "SELECTION_ELEMENT" None None None None None;
    word "w0" "  Total" ].

Lemma display_text_words_witness :
  (get_text (key_block "k" [child ["w0"; "sel"; "gone"; "w1"]; value ["v"];
                            child ["w2"]])
     (block_map (index_of wordy))
   = Ok "Total amount due"
   ∧ ∃ t, get_text (key_block "k" [child ["w0"; "sel"; "gone"; "w1"];
                                   value ["v"]; child ["w2"]])
            (block_map (index_of wordy)) = Ok t
       ∧ trimmed_from
           ("  Total" +:+ String (Ascii.ascii_of_N 32)
              ("amount" +:+ String (Ascii.ascii_of_N 32) "due ")) t)
  ∧ ∃ rows' t,
      rows_step wordy ∅
        (cell "c" 3 2 [child ["w0"; "sel"; "gone"; "w1"]; child ["w2"]])
      = Ok rows'
      ∧ rows' !! 3 ≫= (.!! 2) = Some t
      ∧ t = "Total amount due"
      ∧ trimmed_from
          ("  Total" +:+ String (Ascii.ascii_of_N 32)
             ("amount" +:+ String (Ascii.ascii_of_N 32) "due ")) t.
Proof.
  split.
  - apply (display_text_words _ (block_map (index_of wordy)) [] ∅
             ["  Total"; "amount"; "due "]).
    vm_compute; reflexivity.
  - apply (display_text_words
             (cell "c" 3 2 [child ["w0"; "sel"; "gone"; "w1"]; child ["w2"]])
             ∅ wordy ∅ ["  Total"; "amount"; "due "]);
      vm_compute; reflexivity.
Defined.

(** ** The index of [extract_forms] *)

Definition has_id (id : string) (b : block) : bool := String.eqb (Id b) id.

Definition is_kvs (b : block) : bool :=
  String.eqb (BlockType b) "KEY_VALUE_SET".

Definition has_key_role (b : block) : bool :=
  bool_decide ("KEY" ∈ default [] (EntityTypes b)).

(** A KEY_VALUE_SET block on the key side, and one on the value side. *)
Definition is_key (b : block) : bool := is_kvs b && has_key_role b.
Definition is_value (b : block) : bool := is_kvs b && negb (has_key_role b).

(** The last block of a collection that satisfies [p]. *)
Definition last_with (p : block → bool) (blocks : list block) : option block :=
  List.find p (rev blocks).

Lemma last_with_snoc p blocks b :
  last_with p (blocks ++ [b]) = if p b then Some b else last_with p blocks.
Proof. unfold last_with. by rewrite rev_unit. Qed.

Lemma index_block_eq ix b :
  index_block ix b
  = let bm := <[Id b := b]> (block_map ix) in
    if is_kvs b then
      roles ← getitem "EntityTypes" (EntityTypes b);
      if bool_decide ("KEY" ∈ roles) then
        Ok (Index (od_insert (Id b) b (key_map ix)) (value_map ix) bm)
      else Ok (Index (key_map ix) (<[Id b := b]> (value_map ix)) bm)
    else Ok (Index (key_map ix) (value_map ix) bm).
Proof. reflexivity. Qed.

(** What one step of the indexing loop does, when it does not raise. *)
Lemma index_block_ok ix b ix' :
  index_block ix b = Ok ix' →
  block_map ix' = <[Id b := b]> (block_map ix)
  ∧ value_map ix' = (if is_value b then <[Id b := b]> (value_map ix)
                     else value_map ix)
  ∧ key_map ix' = (if is_key b then od_insert (Id b) b (key_map ix)
                   else key_map ix).
Proof.
  rewrite index_block_eq. unfold is_value, is_key, has_key_role. cbv zeta.
  destruct (is_kvs b); cbn.
  - destruct (EntityTypes b) as [roles|]; cbn; [|done].
    destruct (bool_decide ("KEY" ∈ roles)); by intros [= <-].
  - by intros [= <-].
Qed.

Lemma has_id_true id b : has_id id b = true ↔ Id b = id.
Proof. apply String.eqb_eq. Qed.

Lemma has_id_false id b : has_id id b = false ↔ Id b ≠ id.
Proof. apply String.eqb_neq. Qed.

(** [block_map] resolves an id to the last block of the collection that
    bears it, [value_map] to the last value-side block that bears it. *)
Lemma index_blocks_lookup blocks ix id :
  index_blocks blocks = Ok ix →
  block_map ix !! id = last_with (has_id id) blocks
  ∧ value_map ix !! id = last_with (λ b, has_id id b && is_value b) blocks.
Proof.
  unfold index_blocks. revert ix.
  induction blocks as [|b blocks IH] using rev_ind; intros ix.
  - intros [= <-]. cbn. by rewrite !lookup_empty.
  - rewrite for_each_app.
    destruct (for_each index_block empty_index blocks) as [ix0|] eqn:H0; [|done].
    cbn [mbind result_bind for_each].
    destruct (index_block ix0 b) as [ix1|] eqn:H1; [|done]. cbn.
    intros [= <-]. apply index_block_ok in H1 as (-> & -> & _).
    destruct (IH ix0 eq_refl) as [IHb IHv]. rewrite !last_with_snoc.
    destruct (has_id id b) eqn:Hid.
    + apply has_id_true in Hid as <-. rewrite lookup_insert_eq. split; [done|].
      cbn. destruct (is_value b); [by rewrite lookup_insert_eq|done].
    + apply has_id_false in Hid. rewrite lookup_insert_ne by done. split; [done|].
      cbn. destruct (is_value b); [by rewrite lookup_insert_ne|done].
Qed.

Lemma find_some_elem (p : block → bool) (l : list block) b :
  List.find p l = Some b → b ∈ l ∧ p b = true.
Proof. intros [??]%find_some. by rewrite list_elem_of_In. Qed.

Lemma last_with_elem p blocks b :
  last_with p blocks = Some b → b ∈ blocks ∧ p b = true.
Proof.
  intros [Hin ?]%find_some_elem. split; [|done].
  by rewrite list_elem_of_In, <- in_rev, <- list_elem_of_In in Hin.
Qed.

Lemma od_insert_elem {V} k (v : V) d k' v' :
  (k', v') ∈ od_insert k v d → (k', v') = (k, v) ∨ (k', v') ∈ d.
Proof.
  induction d as [|[k0 v0] d IH]; cbn.
  - intros ->%list_elem_of_singleton. by left.
  - destruct (String.eqb k0 k).
    + intros [->|?]%elem_of_cons; [by left|right; by right].
    + intros [->|[?|?]%IH]%elem_of_cons; [right; by left|by left|right; by right].
Qed.

(** Every entry of [key_map] is a key-side block of the collection, filed
    under its own id. *)
Lemma index_blocks_key_map blocks ix k b :
  index_blocks blocks = Ok ix →
  (k, b) ∈ key_map ix → b ∈ blocks ∧ Id b = k ∧ is_key b = true.
Proof.
  unfold index_blocks. revert ix.
  induction blocks as [|b0 blocks IH] using rev_ind; intros ix.
  - intros [= <-]. by intros ?%elem_of_nil.
  - rewrite for_each_app.
    destruct (for_each index_block empty_index blocks) as [ix0|] eqn:H0; [|done].
    cbn [mbind result_bind for_each].
    destruct (index_block ix0 b0) as [ix1|] eqn:H1; [|done]. cbn.
    intros [= <-]. apply index_block_ok in H1 as (_ & _ & ->).
    rewrite elem_of_app, list_elem_of_singleton.
    destruct (is_key b0) eqn:Hk.
    + intros [[= -> ->]|Hin]%od_insert_elem; [by auto|].
      destruct (IH ix0 eq_refl Hin) as (? & ? & ?). auto.
    + intros Hin. destruct (IH ix0 eq_refl Hin) as (? & ? & ?). auto.
Qed.

(** ** Blocks that carry what their type needs *)

Definition is_Ok {A} (r : result A) : Prop := ∃ a, r = Ok a.

(** A LINE or WORD block has a ['Text'], a KEY_VALUE_SET block has
    ['EntityTypes'].  Nothing is asked of ['Relationships'], ['RowIndex'],
    ['ColumnIndex'], of the ids that relationships list, or of the ids of
    the blocks being distinct. *)
Definition well_formed (b : block) : Prop :=
  (BlockType b = "LINE" ∨ BlockType b = "WORD" → is_Some (Text b))
  ∧ (BlockType b = "KEY_VALUE_SET" → is_Some (EntityTypes b)).

(** Decides [Forall well_formed] on a collection that is written out. *)
Ltac solve_well_formed :=
  repeat (apply Forall_cons; split;
          [split; [intros [?|?]|intros ?]; (discriminate || by eexists)|]);
  by apply Forall_nil.

Lemma for_each_total {A S} (body : S → A → result S) (s : S) (l : list A) :
  (∀ s x, x ∈ l → is_Ok (body s x)) → is_Ok (for_each body s l).
Proof.
  revert s. induction l as [|x l IH]; intros s Hb; cbn [for_each].
  - by exists s.
  - destruct (Hb s x) as [s' ->]; [left|]. cbn.
    apply IH. intros ???. apply Hb. by right.
Qed.

Lemma collect_total (lk : string → option block) ids acc :
  (∀ id w, lk id = Some w → well_formed w) →
  is_Ok (for_each (collect_id lk) acc ids).
Proof.
  intros Hlk. apply for_each_total. intros text id _. rewrite collect_id_eq.
  destruct (lk id) as [w|] eqn:Hw; [|by eexists].
  unfold is_word. destruct (String.eqb_spec (BlockType w) "WORD") as [Hb|]; [|by eexists].
  destruct (Hlk id w Hw) as [[t ->] _]; [by right|]. by eexists.
Qed.

Lemma get_text_total b (bm : gmap string block) :
  (∀ id w, bm !! id = Some w → well_formed w) → is_Ok (get_text b bm).
Proof.
  intros Hbm. rewrite get_text_collect.
  destruct (collect_total (λ id, bm !! id) (child_ids b) "" Hbm) as [t ->].
  by eexists.
Qed.

Lemma extract_text_total blocks :
  Forall well_formed blocks → is_Ok (extract_text blocks).
Proof.
  intros Hwf. unfold extract_text.
  destruct (for_each_total extract_text_step [] blocks) as [ts ->]; [|by eexists].
  intros acc b Hb. rewrite extract_text_step_eq. unfold is_line.
  destruct (String.eqb_spec (BlockType b) "LINE") as [Hl|]; [|by eexists].
  rewrite Forall_forall in Hwf. destruct (Hwf b Hb) as [[t ->] _]; [by left|].
  by eexists.
Qed.

Lemma index_blocks_total blocks :
  Forall well_formed blocks → is_Ok (index_blocks blocks).
Proof.
  intros Hwf. apply for_each_total. intros ix b Hb. rewrite index_block_eq.
  unfold is_kvs. cbv zeta.
  destruct (String.eqb_spec (BlockType b) "KEY_VALUE_SET") as [Hk|]; [|by eexists].
  rewrite Forall_forall in Hwf. destruct (Hwf b Hb) as [_ [roles ->]]; [done|].
  cbn. destruct (bool_decide _); by eexists.
Qed.

Lemma extract_forms_total blocks :
  Forall well_formed blocks → is_Ok (extract_forms blocks).
Proof.
  intros Hwf. unfold extract_forms.
  destruct (index_blocks_total blocks Hwf) as [ix Hix]. rewrite Hix. cbn.
  rewrite Forall_forall in Hwf.
  assert (∀ id w, block_map ix !! id = Some w → well_formed w) as Hbm.
  { intros id w Hw. destruct (index_blocks_lookup blocks ix id Hix) as [Hl _].
    rewrite Hw in Hl. symmetry in Hl. apply last_with_elem in Hl as [??]. auto. }
  apply for_each_total. intros forms [k kb] _. unfold forms_step, form_pair.
  cbn [snd]. destruct (get_text_total kb (block_map ix) Hbm) as [kt ->]. cbn.
  destruct (find_value_block kb (value_map ix)) as [vb|]; cbn.
  - destruct (get_text_total vb (block_map ix) Hbm) as [vt ->]. cbn.
    destruct (nonempty kt && nonempty vt); by eexists.
  - rewrite andb_false_r. by eexists.
Qed.

Lemma find_block_elem blocks id b :
  find_block blocks id = Some b → b ∈ blocks ∧ Id b = id.
Proof. intros [? ?%String.eqb_eq]%find_some_elem. done. Qed.

Lemma cell_text_total blocks cell :
  Forall well_formed blocks → is_Ok (cell_text_of blocks cell).
Proof.
  intros Hwf. rewrite cell_text_collect. apply collect_total.
  intros id w [Hw _]%find_block_elem. rewrite Forall_forall in Hwf. auto.
Qed.

Lemma table_of_total blocks tb :
  Forall well_formed blocks → is_Ok (table_of blocks tb).
Proof.
  intros Hwf. unfold table_of. destruct (Relationships tb) as [rels|]; [|by eexists].
  apply for_each_total. intros tbl rel _. unfold table_rel.
  destruct (String.eqb (Type_ rel) "CHILD"); [|by eexists].
  destruct (for_each_total (rows_step blocks) ∅ (cells_of blocks (Ids rel)))
    as [rows ->]; [|by eexists].
  intros rows c _. unfold rows_step.
  destruct (String.eqb (BlockType c) "CELL"); [|by eexists].
  destruct (cell_text_total blocks c Hwf) as [t ->]. by eexists.
Qed.

Lemma extract_tables_total blocks :
  Forall well_formed blocks → is_Ok (extract_tables blocks).
Proof.
  intros Hwf. apply for_each_total. intros tables tb _. unfold tables_step.
  destruct (table_of_total blocks tb Hwf) as [tbl ->]. cbn.
  destruct tbl; by eexists.
Qed.

(** ** Missing attributes *)

Lemma index_blocks_raises blocks ix :
  Exists (λ b, BlockType b = "KEY_VALUE_SET" ∧ EntityTypes b = None) blocks →
  for_each index_block ix blocks = Raise (KeyError "EntityTypes").
Proof.
  revert ix. induction blocks as [|b blocks IH]; intros ix Hex.
  - by apply Exists_nil in Hex.
  - cbn [for_each]. rewrite index_block_eq. unfold is_kvs. cbv zeta.
    destruct (String.eqb_spec (BlockType b) "KEY_VALUE_SET") as [Hk|Hk].
    + destruct (EntityTypes b) as [roles|] eqn:Hr; cbn; [|done].
      assert (Exists (λ b, BlockType b = "KEY_VALUE_SET" ∧ EntityTypes b = None)
                blocks) as Hex'.
      { apply Exists_cons in Hex as [[_ ?]|?]; [congruence|done]. }
      destruct (bool_decide _); cbn; by apply IH.
    + cbn. apply IH. apply Exists_cons in Hex as [[? _]|?]; [done|done].
Qed.

Definition bare_line : block := Block "l" "LINE" None None None None None.
Definition bare_kvs : block :=
  Block "v" "KEY_VALUE_SET" None None None None None.

(** C6, as stated, fails: ['Text'] and ['EntityTypes'] are read with
    [block[...]], so a LINE block without the one aborts the text assembly
    and a KEY_VALUE_SET block without the other aborts the form
    extraction. *)
Lemma missing_attribute_raises :
  extract_text [bare_line] = Raise (KeyError "Text")
  ∧ extract_forms [bare_kvs] = Raise (KeyError "EntityTypes").
Proof. split; reflexivity. Qed.

(** C6 (amended). A LINE block whose text is the empty string contributes
    an empty line and is not skipped, while a LINE block with no ['Text']
    aborts the text assembly with a [KeyError].  A KEY_VALUE_SET block whose
    entity types are there and do not contain KEY (the empty list included)
    goes to the value side, while one with no ['EntityTypes'] aborts the
    form extraction with a [KeyError].  Of the attributes that may be
    missing, ['Relationships'], ['RowIndex'] and ['ColumnIndex'] never make
    an extractor fail: blocks that carry their texts and entity types are
    reconstructed. *)
Theorem missing_attributes (blocks l1 l2 : list block) (b : block)
    (ts1 ts2 : list string) (ix : index) (roles : list string) :
  (Exists (λ b, BlockType b = "LINE" ∧ Text b = None) blocks →
   extract_text blocks = Raise (KeyError "Text"))
  ∧ (BlockType b = "LINE" → Text b = Some "" →
     Text <$> line_blocks l1 = Some <$> ts1 →
     Text <$> line_blocks l2 = Some <$> ts2 →
     extract_text (l1 ++ b :: l2) = Ok (join newline (ts1 ++ "" :: ts2)))
  ∧ (Exists (λ b, BlockType b = "KEY_VALUE_SET" ∧ EntityTypes b = None) blocks →
     extract_forms blocks = Raise (KeyError "EntityTypes"))
  ∧ (BlockType b = "KEY_VALUE_SET" → EntityTypes b = Some roles →
     "KEY" ∉ roles →
     index_block ix b
     = Ok (Index (key_map ix) (<[Id b := b]> (value_map ix))
             (<[Id b := b]> (block_map ix))))
  ∧ (Forall well_formed blocks →
     is_Ok (extract_text blocks) ∧ is_Ok (extract_forms blocks)
     ∧ is_Ok (extract_tables blocks)).
Proof.
  split; [|split; [|split; [|split]]].
  - intros Hex. unfold extract_text. by rewrite extract_text_raises.
  - intros Hl Ht H1 H2. unfold extract_text.
    rewrite (extract_text_loop _ [] (ts1 ++ "" :: ts2)); [done|].
    unfold line_blocks. rewrite List.filter_app. cbn [List.filter].
    unfold is_line at 2. rewrite Hl. cbn.
    rewrite !fmap_app, !fmap_cons. by rewrite <- H1, <- H2, Ht.
  - intros Hex. unfold extract_forms, index_blocks.
    by rewrite index_blocks_raises.
  - intros Hk Hr Hnk. rewrite index_block_eq. unfold is_kvs. rewrite Hk, Hr.
    cbn. by rewrite bool_decide_eq_false_2.
  - intros Hwf. auto using extract_text_total, extract_forms_total,
      extract_tables_total.
Qed.

Definition roleless_kvs : block :=
  Block "v" "KEY_VALUE_SET" None (Some []) None None None.

Lemma missing_attributes_witness :
  extract_text [bare_line] = Raise (KeyError "Text")
  ∧ extract_text ([word "w" "x"] ++ line "e" "" :: [line "l" "y"])
    = Ok (join newline ([] ++ "" :: ["y"]))
  ∧ extract_forms [bare_kvs] = Raise (KeyError "EntityTypes")
  ∧ index_block empty_index roleless_kvs
    = Ok (Index [] (<[Id roleless_kvs := roleless_kvs]> ∅)
            (<[Id roleless_kvs := roleless_kvs]> ∅))
  ∧ is_Ok (extract_tables [roleless_kvs]).
Proof.
  split; [|split; [|split; [|split]]].
  - apply (missing_attributes [bare_line] [] [] bare_line [] [] empty_index []).
    apply Exists_cons_hd. by split.
  - by apply (missing_attributes [] [word "w" "x"] [line "l" "y"] (line "e" "")
                [] ["y"] empty_index []).
  - apply (missing_attributes [bare_kvs] [] [] bare_kvs [] [] empty_index []).
    apply Exists_cons_hd. by split.
  - apply (missing_attributes [] [] [] roleless_kvs [] [] empty_index []);
      [done..|]. by intros ?%elem_of_nil.
  - apply (missing_attributes [roleless_kvs] [] [] roleless_kvs [] []
             empty_index []).
    apply Forall_cons. split; [|done]. split; [by intros [|]|by eexists].
Defined.

(** ** Blocks that share an id *)

(** [b] is the first, respectively the last, block of [blocks] that
    satisfies [p]. *)
Definition is_first (p : block → bool) (blocks : list block) (b : block) : Prop :=
  ∃ l1 l2, blocks = l1 ++ b :: l2 ∧ p b = true ∧ Forall (λ x, p x = false) l1.

Definition is_last (p : block → bool) (blocks : list block) (b : block) : Prop :=
  ∃ l1 l2, blocks = l1 ++ b :: l2 ∧ p b = true ∧ Forall (λ x, p x = false) l2.

Lemma find_is_first p blocks b :
  List.find p blocks = Some b ↔ is_first p blocks b.
Proof.
  split.
  - induction blocks as [|x blocks IH]; cbn; [done|].
    destruct (p x) eqn:Hx.
    + intros [= ->]. by exists [], blocks.
    + intros (l1 & l2 & -> & ? & ?)%IH. exists (x :: l1), l2.
      repeat split; [done|]. by constructor.
  - intros (l1 & l2 & -> & Hb & Hl1).
    induction Hl1 as [|x l1 Hx _ IH]; cbn; [by rewrite Hb|by rewrite Hx].
Qed.

Lemma last_with_is_last p blocks b :
  last_with p blocks = Some b ↔ is_last p blocks b.
Proof.
  unfold last_with. rewrite find_is_first. split.
  - intros (l1 & l2 & Hrev & Hb & Hl1). exists (rev l2), (rev l1).
    repeat split; [|done|].
    + rewrite <- (rev_involutive blocks), Hrev, rev_app_distr. cbn.
      by rewrite <- app_assoc.
    + apply Forall_forall. intros x Hx. rewrite Forall_forall in Hl1.
      apply Hl1. by rewrite list_elem_of_In, in_rev, <- list_elem_of_In.
  - intros (l1 & l2 & -> & Hb & Hl2). exists (rev l2), (rev l1).
    repeat split; [|done|].
    + rewrite rev_app_distr. cbn. by rewrite <- app_assoc.
    + apply Forall_forall. intros x Hx. rewrite Forall_forall in Hl2.
      apply Hl2. by rewrite list_elem_of_In, in_rev, <- list_elem_of_In.
Qed.

Definition twin_words : list block :=
  [ table "t" [child ["c"]]; cell "c" 1 1 [child ["w"]];
    word "w" "first"; word "w" "second" ].

(** C8, as stated, fails: the table extractor resolves a word id by a scan
    of the collection from the front, so of two blocks with one id it takes
    the first. *)
Lemma table_word_first_wins :
  last_with (has_id "w") twin_words = Some (word "w" "second")
  ∧ find_block twin_words "w" = Some (word "w" "first")
  ∧ extract_tables twin_words = Ok [[["first"]]].
Proof. repeat split; vm_compute; reflexivity. Qed.

(** C8 (amended). Blocks that share an id make no extractor fail.  In the
    form extractor an id resolves through [block_map] to the last block of
    the collection that bears it, and through [value_map] to the last
    value-side KEY_VALUE_SET block that bears it; in the table extractor a
    word id resolves to the first block of the collection that bears it. *)
Theorem shared_ids (blocks : list block) (ix : index) (id : string)
    (b : block) :
  (Forall well_formed blocks →
   is_Ok (extract_text blocks) ∧ is_Ok (extract_forms blocks)
   ∧ is_Ok (extract_tables blocks))
  ∧ (index_blocks blocks = Ok ix →
     (block_map ix !! id = Some b ↔ is_last (has_id id) blocks b)
     ∧ (value_map ix !! id = Some b
        ↔ is_last (λ b, has_id id b && is_value b) blocks b))
  ∧ (find_block blocks id = Some b ↔ is_first (has_id id) blocks b).
Proof.
  split; [|split].
  - intros Hwf. auto using extract_text_total, extract_forms_total,
      extract_tables_total.
  - intros Hix. destruct (index_blocks_lookup blocks ix id Hix) as [-> ->].
    split; apply last_with_is_last.
  - apply find_is_first.
Qed.

Definition twin_values : list block :=
  [ value_block "v" [child ["w"]]; word "w" "old"; word "w" "new";
    word "v" "shadow" ].

Lemma shared_ids_witness :
  is_Ok (extract_tables twin_words)
  ∧ (block_map (index_of twin_values) !! "w" = Some (word "w" "new")
     ↔ is_last (has_id "w") twin_values (word "w" "new"))
  ∧ (value_map (index_of twin_values) !! "v"
     = Some (value_block "v" [child ["w"]])
     ↔ is_last (λ b, has_id "v" b && is_value b) twin_values
         (value_block "v" [child ["w"]])).
Proof.
  split; [|split].
  - apply (shared_ids twin_words empty_index "w" (word "w" "first")).
    solve_well_formed.
  - apply (shared_ids twin_values (index_of twin_values) "w" (word "w" "new")).
    vm_compute. reflexivity.
  - apply (shared_ids twin_values (index_of twin_values) "v"
             (value_block "v" [child ["w"]])).
    vm_compute. reflexivity.
Defined.

(** ** Ids that resolve to nothing *)

Definition result_map {A B} (f : A → B) (r : result A) : result B :=
  match r with
  | Ok a => Ok (f a)
  | Raise e => Raise e
  end.

Lemma for_each_fmap {A B S} (body : S → B → result S) (f : A → B) s l :
  for_each body s (f <$> l) = for_each (λ s x, body s (f x)) s l.
Proof.
  revert s. induction l as [|x l IH]; intros s; cbn; [done|].
  destruct (body s (f x)); cbn; [apply IH|done].
Qed.

(** Two loops that run in step, the states related by [g]. *)
Lemma for_each_sim {A S S'} (body : S → A → result S)
    (body' : S' → A → result S') (g : S → S') s l :
  (∀ s x, x ∈ l → body' (g s) x = result_map g (body s x)) →
  for_each body' (g s) l = result_map g (for_each body s l).
Proof.
  revert s. induction l as [|x l IH]; intros s Hb; cbn; [done|].
  rewrite Hb by left. destruct (body s x) as [s'|e]; cbn; [|done].
  apply IH. intros ???. apply Hb. by right.
Qed.

(** The ids some block of the collection bears. *)
Definition known (blocks : list block) (id : string) : bool :=
  bool_decide (id ∈ Id <$> blocks).

Section prune.
Variable keep : string → bool.

(** A relationship, and a block, with the ids outside [keep] struck out. *)
Definition prune_rel (r : relationship) : relationship :=
  Relationship (Type_ r) (List.filter keep (Ids r)).

Definition prune (b : block) : block :=
  Block (Id b) (BlockType b) (Text b) (EntityTypes b) (RowIndex b)
    (ColumnIndex b)
    ((λ rels : list relationship, prune_rel <$> rels) <$> Relationships b).

Lemma child_ids_prune b : child_ids (prune b) = List.filter keep (child_ids b).
Proof.
  unfold child_ids. cbn. destruct (Relationships b) as [rels|]; [|done]. cbn.
  induction rels as [|r rels IH]; [done|]. cbn [fmap list_fmap flat_map].
  rewrite List.filter_app. f_equal; [|apply IH]. cbn.
  by destruct (String.eqb (Type_ r) "CHILD").
Qed.

Lemma collect_id_prune lk text id :
  collect_id (λ id, prune <$> lk id) text id = collect_id lk text id.
Proof. rewrite !collect_id_eq. by destruct (lk id). Qed.

Lemma collect_prune lk lk' acc ids :
  (∀ id, keep id = false → lk id = None) →
  (∀ text id, collect_id lk' text id = collect_id lk text id) →
  for_each (collect_id lk') acc (List.filter keep ids)
  = for_each (collect_id lk) acc ids.
Proof.
  intros Hd Heq. rewrite (for_each_filter keep (collect_id lk) acc ids).
  - apply for_each_ext. auto.
  - intros text id Hid. rewrite collect_id_eq. by rewrite Hd.
Qed.

Lemma find_value_id_prune ids (vm : gmap string block) :
  (∀ id, keep id = false → vm !! id = None) →
  find_value_id (List.filter keep ids) (prune <$> vm)
  = prune <$> find_value_id ids vm.
Proof.
  intros Hd. induction ids as [|id ids IH]; [done|]. cbn.
  destruct (keep id) eqn:Hk; cbn.
  - rewrite lookup_fmap. destruct (vm !! id); [done|apply IH].
  - rewrite (Hd id Hk). apply IH.
Qed.

Lemma find_value_block_prune b (vm : gmap string block) :
  (∀ id, keep id = false → vm !! id = None) →
  find_value_block (prune b) (prune <$> vm)
  = prune <$> find_value_block b vm.
Proof.
  intros Hd. unfold find_value_block. cbn.
  destruct (Relationships b) as [rels|]; [|done]. cbn.
  induction rels as [|r rels IH]; [done|]. cbn.
  destruct (String.eqb (Type_ r) "VALUE"); [|apply IH].
  rewrite find_value_id_prune by done.
  destruct (find_value_id (Ids r) vm); [done|apply IH].
Qed.

Lemma get_text_prune b (bm : gmap string block) :
  (∀ id, keep id = false → bm !! id = None) →
  get_text (prune b) (prune <$> bm) = get_text b bm.
Proof.
  intros Hd. rewrite !get_text_collect, child_ids_prune.
  rewrite (collect_prune (λ id, bm !! id)); [done..|].
  intros text id. rewrite <- (collect_id_prune (λ id, bm !! id)).
  rewrite !collect_id_eq. by rewrite lookup_fmap.
Qed.

Lemma od_insert_prune k b (d : list (string * block)) :
  od_insert k (prune b) (prod_map id prune <$> d)
  = prod_map id prune <$> od_insert k b d.
Proof.
  induction d as [|[k' b'] d IH]; [done|]. cbn.
  destruct (String.eqb k' k); [done|]. cbn. by rewrite <- IH.
Qed.

Definition prune_index (ix : index) : index :=
  Index (prod_map id prune <$> key_map ix) (prune <$> value_map ix)
    (prune <$> block_map ix).

Lemma index_block_prune ix b :
  index_block (prune_index ix) (prune b)
  = result_map prune_index (index_block ix b).
Proof.
  rewrite !index_block_eq. unfold is_kvs, prune_index. cbn.
  destruct (String.eqb (BlockType b) "KEY_VALUE_SET"); cbn.
  - destruct (EntityTypes b) as [roles|]; cbn; [|done].
    destruct (bool_decide ("KEY" ∈ roles)); cbn.
    + by rewrite od_insert_prune, fmap_insert.
    + by rewrite !fmap_insert.
  - by rewrite fmap_insert.
Qed.

Lemma index_blocks_prune blocks :
  index_blocks (prune <$> blocks)
  = result_map prune_index (index_blocks blocks).
Proof.
  unfold index_blocks. rewrite for_each_fmap.
  change empty_index with (prune_index empty_index) at 1.
  apply for_each_sim. intros ix b _. apply index_block_prune.
Qed.
End prune.

Section prune_collection.
Variable keep : string → bool.
Variable blocks : list block.
(** Every id that some block bears is kept: only ids that resolve to
    nothing are struck out. *)
Hypothesis keep_known : ∀ b, b ∈ blocks → keep (Id b) = true.

Lemma find_block_dangling id : keep id = false → find_block blocks id = None.
Proof.
  intros Hk. destruct (find_block blocks id) as [b|] eqn:Hf; [|done].
  apply find_block_elem in Hf as [Hb <-]. by rewrite keep_known in Hk.
Qed.

Lemma index_dangling ix id :
  index_blocks blocks = Ok ix → keep id = false →
  block_map ix !! id = None ∧ value_map ix !! id = None.
Proof.
  intros Hix Hk. destruct (index_blocks_lookup blocks ix id Hix) as [-> ->].
  split.
  - destruct (last_with _ _) as [b|] eqn:Hl; [|done].
    apply last_with_elem in Hl as [Hb <-%has_id_true].
    by rewrite keep_known in Hk.
  - destruct (last_with _ _) as [b|] eqn:Hl; [|done].
    apply last_with_elem in Hl as [Hb [<-%has_id_true _]%andb_true_iff].
    by rewrite keep_known in Hk.
Qed.

Lemma extract_text_prune :
  extract_text (prune keep <$> blocks) = extract_text blocks.
Proof. unfold extract_text. by rewrite for_each_fmap. Qed.

Lemma forms_step_prune ix forms k kb :
  index_blocks blocks = Ok ix →
  forms_step (prune_index keep ix) forms (k, prune keep kb)
  = forms_step ix forms (k, kb).
Proof.
  intros Hix. unfold forms_step, form_pair. cbn [snd prune_index value_map block_map].
  assert (∀ id, keep id = false → block_map ix !! id = None) as Hbm.
  { intros id Hk. by destruct (index_dangling ix id Hix Hk). }
  assert (∀ id, keep id = false → value_map ix !! id = None) as Hvm.
  { intros id Hk. by destruct (index_dangling ix id Hix Hk). }
  rewrite find_value_block_prune, get_text_prune by done.
  destruct (get_text kb (block_map ix)) as [kt|]; [|done]. cbn.
  destruct (find_value_block kb (value_map ix)) as [vb|]; [|done].
  cbn [fmap option_fmap option_map]. by rewrite get_text_prune.
Qed.

Lemma extract_forms_prune :
  extract_forms (prune keep <$> blocks) = extract_forms blocks.
Proof.
  unfold extract_forms. rewrite index_blocks_prune.
  destruct (index_blocks blocks) as [ix|] eqn:Hix; [|done]. cbn.
  rewrite for_each_fmap. apply for_each_ext. intros forms [k kb] _.
  by apply forms_step_prune.
Qed.

Lemma find_block_prune id :
  find_block (prune keep <$> blocks) id = prune keep <$> find_block blocks id.
Proof.
  unfold find_block. clear keep_known.
  induction blocks as [|b l IH]; [done|]. cbn.
  destruct (String.eqb (Id b) id); [done|apply IH].
Qed.

Lemma cell_text_prune c :
  cell_text_of (prune keep <$> blocks) (prune keep c) = cell_text_of blocks c.
Proof.
  rewrite !cell_text_collect, child_ids_prune.
  apply collect_prune; [apply find_block_dangling|].
  intros text id. rewrite <- (collect_id_prune keep (find_block blocks)).
  rewrite !collect_id_eq. by rewrite find_block_prune.
Qed.

Lemma rows_step_prune rows c :
  rows_step (prune keep <$> blocks) rows (prune keep c)
  = rows_step blocks rows c.
Proof. unfold rows_step. cbn. by rewrite cell_text_prune. Qed.

Lemma cells_of_prune ids :
  cells_of (prune keep <$> blocks) (List.filter keep ids)
  = prune keep <$> cells_of blocks ids.
Proof.
  unfold cells_of. revert keep_known.
  induction blocks as [|b l IH]; intros Hk; [done|]. cbn.
  rewrite IH by (intros; apply Hk; by right).
  assert (bool_decide (Id b ∈ List.filter keep ids) = bool_decide (Id b ∈ ids))
    as ->; [|by destruct (bool_decide _)].
  apply bool_decide_ext. rewrite !list_elem_of_In, filter_In.
  rewrite Hk by left. tauto.
Qed.

Lemma table_rel_prune tbl rel :
  table_rel (prune keep <$> blocks) tbl (prune_rel keep rel)
  = table_rel blocks tbl rel.
Proof.
  unfold table_rel. cbn. destruct (String.eqb (Type_ rel) "CHILD"); [|done].
  rewrite cells_of_prune, for_each_fmap.
  rewrite (for_each_ext _ (rows_step blocks)); [done|].
  intros rows c _. apply rows_step_prune.
Qed.

Lemma table_of_prune tb :
  table_of (prune keep <$> blocks) (prune keep tb) = table_of blocks tb.
Proof.
  unfold table_of. cbn. destruct (Relationships tb) as [rels|]; [|done]. cbn.
  rewrite for_each_fmap. apply for_each_ext. intros tbl rel _.
  apply table_rel_prune.
Qed.

Lemma table_blocks_prune :
  table_blocks (prune keep <$> blocks) = prune keep <$> table_blocks blocks.
Proof.
  unfold table_blocks. clear keep_known.
  induction blocks as [|b l IH]; [done|]. cbn.
  destruct (String.eqb (BlockType b) "TABLE"); cbn; by rewrite IH.
Qed.

Lemma extract_tables_prune :
  extract_tables (prune keep <$> blocks) = extract_tables blocks.
Proof.
  unfold extract_tables, extract_tables_from.
  rewrite table_blocks_prune, for_each_fmap. apply for_each_ext.
  intros tables tb _. unfold tables_step. by rewrite table_of_prune.
Qed.
End prune_collection.

Lemma known_ids (blocks : list block) (b : block) :
  b ∈ blocks → known blocks (Id b) = true.
Proof.
  intros Hb. apply bool_decide_eq_true. by apply list_elem_of_fmap_2.
Qed.

Section prune_block.
Variable keep : string → bool.

Lemma get_text_prune_block b (bm : gmap string block) :
  (∀ id, keep id = false → bm !! id = None) →
  get_text (prune keep b) bm = get_text b bm.
Proof.
  intros Hd. rewrite !get_text_collect, child_ids_prune.
  by rewrite (collect_prune keep (λ id, bm !! id)).
Qed.

Lemma find_value_block_prune_block b (vm : gmap string block) :
  (∀ id, keep id = false → vm !! id = None) →
  find_value_block (prune keep b) vm = find_value_block b vm.
Proof.
  intros Hd. unfold find_value_block. cbn.
  destruct (Relationships b) as [rels|]; [|done]. cbn.
  induction rels as [|r rels IH]; [done|]. cbn.
  destruct (String.eqb (Type_ r) "VALUE"); [|apply IH].
  assert (find_value_id (List.filter keep (Ids r)) vm
          = find_value_id (Ids r) vm) as ->; [|by rewrite IH].
  induction (Ids r) as [|id ids IHi]; [done|]. cbn.
  destruct (keep id) eqn:Hk; cbn; [by rewrite IHi|by rewrite (Hd id Hk)].
Qed.

Lemma cell_text_prune_block blocks c :
  (∀ b, b ∈ blocks → keep (Id b) = true) →
  cell_text_of blocks (prune keep c) = cell_text_of blocks c.
Proof.
  intros Hk. rewrite !cell_text_collect, child_ids_prune.
  apply collect_prune; [|done]. by apply find_block_dangling.
Qed.

Lemma table_of_prune_block blocks tb :
  (∀ b, b ∈ blocks → keep (Id b) = true) →
  table_of blocks (prune keep tb) = table_of blocks tb.
Proof.
  intros Hk. unfold table_of. cbn.
  destruct (Relationships tb) as [rels|]; [|done]. cbn.
  rewrite for_each_fmap. apply for_each_ext. intros tbl rel _.
  unfold table_rel. cbn. destruct (String.eqb (Type_ rel) "CHILD"); [|done].
  assert (cells_of blocks (List.filter keep (Ids rel))
          = cells_of blocks (Ids rel)) as ->; [|done].
  unfold cells_of. apply List.filter_ext_in. intros b Hb%list_elem_of_In.
  apply bool_decide_ext. rewrite !list_elem_of_In, filter_In.
  rewrite Hk by done. tauto.
Qed.
End prune_block.

(** C7. A target id that no block of the collection bears makes no
    extractor fail and changes no result.  Striking such ids out of a
    block changes neither its text, nor the value block it pairs with, nor
    the grid and cell text the table extractor builds from it; and striking
    them out of every block leaves the outputs of the three extractors as
    they are.  Blocks that carry their texts and entity types are
    reconstructed whatever ids their relationships list. *)
Theorem dangling_ids_skipped (blocks : list block) (b : block) (ix : index) :
  (index_blocks blocks = Ok ix →
   get_text (prune (known blocks) b) (block_map ix) = get_text b (block_map ix)
   ∧ find_value_block (prune (known blocks) b) (value_map ix)
     = find_value_block b (value_map ix))
  ∧ table_of blocks (prune (known blocks) b) = table_of blocks b
  ∧ cell_text_of blocks (prune (known blocks) b) = cell_text_of blocks b
  ∧ extract_text (prune (known blocks) <$> blocks) = extract_text blocks
  ∧ extract_forms (prune (known blocks) <$> blocks) = extract_forms blocks
  ∧ extract_tables (prune (known blocks) <$> blocks) = extract_tables blocks
  ∧ (Forall well_formed blocks →
     is_Ok (extract_text blocks) ∧ is_Ok (extract_forms blocks)
     ∧ is_Ok (extract_tables blocks)).
Proof.
  pose proof (known_ids blocks) as Hk.
  split; [|repeat split].
  - intros Hix. split.
    + apply get_text_prune_block. intros id Hid.
      by destruct (index_dangling (known blocks) blocks Hk ix id Hix Hid).
    + apply find_value_block_prune_block. intros id Hid.
      by destruct (index_dangling (known blocks) blocks Hk ix id Hix Hid).
  - by apply table_of_prune_block.
  - by apply cell_text_prune_block.
  - apply extract_text_prune.
  - by apply extract_forms_prune.
  - by apply extract_tables_prune.
  - by apply extract_text_total.
  - by apply extract_forms_total.
  - by apply extract_tables_total.
Qed.

Definition dangling_key : block :=
  key_block "k1" [child ["nowhere"; "w1"]; value ["gone"; "id2"]].

Definition dangling : list block :=
  [ line "l1" "Invoice #123";
    dangling_key;
    value_block "id2" [child ["w2"; "lost"]];
    table "t" [child ["c"; "missing"]];
    cell "c" 1 1 [child ["absent"; "w2"]];
    word "w1" "Total";
    word "w2" "42" ].

Lemma dangling_ids_skipped_witness :
  (get_text (prune (known dangling) dangling_key) (block_map (index_of dangling))
   = get_text dangling_key (block_map (index_of dangling))
   ∧ find_value_block (prune (known dangling) dangling_key)
       (value_map (index_of dangling))
     = find_value_block dangling_key (value_map (index_of dangling)))
  ∧ is_Ok (extract_text dangling) ∧ is_Ok (extract_forms dangling)
  ∧ is_Ok (extract_tables dangling).
Proof.
  destruct (dangling_ids_skipped dangling dangling_key (index_of dangling))
    as (Hforms & _ & _ & _ & _ & _ & Htotal).
  split.
  - apply Hforms. vm_compute. reflexivity.
  - apply Htotal. solve_well_formed.
Defined.

(** ** Sorted keys and the emitted grid *)

Lemma strictly_sorted (l : list Z) :
  StronglySorted Z.le l → NoDup l → StronglySorted Z.lt l.
Proof.
  induction 1 as [|x l Hl IH Hx]; intros Hnd; constructor.
  - apply IH. by apply NoDup_cons in Hnd as [_ ?].
  - apply NoDup_cons in Hnd as [Hnx _]. rewrite Forall_forall in Hx |- *.
    intros y Hy. specialize (Hx y Hy).
    assert (x ≠ y) by (intros ->; done). lia.
Qed.

Section sorted_keys.
Context {V : Type}.
Implicit Types d : gmap Z V.

Lemma sorted_keys_perm d : sorted_keys d ≡ₚ (map_to_list d).*1.
Proof. apply merge_sort_Permutation. Qed.

(** The keys come out in ascending order, each once. *)
Lemma sorted_keys_sorted d : StronglySorted Z.lt (sorted_keys d).
Proof.
  apply strictly_sorted.
  - apply StronglySorted_merge_sort; apply _.
  - rewrite sorted_keys_perm. apply NoDup_fst_map_to_list.
Qed.

(** They are the keys of the dict, no more and no less. *)
Lemma sorted_keys_elem d k : k ∈ sorted_keys d ↔ is_Some (d !! k).
Proof.
  rewrite sorted_keys_perm, list_elem_of_fmap. split.
  - intros ([k' v] & -> & Hkv%elem_of_map_to_list). by exists v.
  - intros [v Hv]. exists (k, v). split; [done|]. by apply elem_of_map_to_list.
Qed.

Lemma sorted_keys_length d : length (sorted_keys d) = size d.
Proof. by rewrite sorted_keys_perm, length_fmap, length_map_to_list. Qed.

Lemma sorted_keys_empty : sorted_keys (∅ : gmap Z V) = [].
Proof. apply length_zero_iff_nil. rewrite sorted_keys_length. apply map_size_empty. Qed.
End sorted_keys.

Lemma emit_row_length (row : gmap Z string) : length (emit_row row) = size row.
Proof. unfold emit_row. by rewrite length_fmap, sorted_keys_length. Qed.

Lemma emit_row_lookup (row : gmap Z string) (j : nat) (c : Z) :
  sorted_keys row !! j = Some c → emit_row row !! j = row !! c.
Proof.
  intros Hj. unfold emit_row. rewrite list_lookup_fmap, Hj. cbn.
  assert (is_Some (row !! c)) as [t ->]; [|done].
  apply sorted_keys_elem. by eapply list_elem_of_lookup_2.
Qed.

Lemma emit_rows_length (rows : gmap Z (gmap Z string)) :
  length (emit_rows rows) = size rows.
Proof. unfold emit_rows. by rewrite length_fmap, sorted_keys_length. Qed.

Lemma emit_rows_lookup (rows : gmap Z (gmap Z string)) (i : nat) (r : Z) :
  sorted_keys rows !! i = Some r →
  ∃ row, rows !! r = Some row ∧ emit_rows rows !! i = Some (emit_row row).
Proof.
  intros Hi. unfold emit_rows. rewrite list_lookup_fmap, Hi. cbn.
  assert (is_Some (rows !! r)) as [row ->]; [|by exists row].
  apply sorted_keys_elem. by eapply list_elem_of_lookup_2.
Qed.

Lemma emit_rows_empty : emit_rows ∅ = [].
Proof. unfold emit_rows. by rewrite sorted_keys_empty. Qed.

(** The dict [rows] built for one CHILD relationship. *)
Definition rel_rows (blocks : list block) (rel : relationship)
  : result (gmap Z (gmap Z string)) :=
  for_each (rows_step blocks) ∅ (cells_of blocks (Ids rel)).

Lemma table_rel_eq blocks tbl rel :
  table_rel blocks tbl rel
  = if String.eqb (Type_ rel) "CHILD" then
      rows ← rel_rows blocks rel; Ok (tbl ++ emit_rows rows)
    else Ok tbl.
Proof. reflexivity. Qed.

(** ** The dict [rows] *)

Definition is_cell (b : block) : bool := String.eqb (BlockType b) "CELL".

(** A CELL block at row [r] and column [c], absent indices counting as 1. *)
Definition cell_at (r c : Z) (b : block) : bool :=
  is_cell b && (default 1 (RowIndex b) =? r) && (default 1 (ColumnIndex b) =? c).

(** The text a cell shows in the grid. *)
Definition cell_display (blocks : list block) (cell : block) : option string :=
  match cell_text_of blocks cell with
  | Ok t => Some (strip t)
  | Raise _ => None
  end.

Lemma rows_step_ok blocks rows0 x rows :
  rows_step blocks rows0 x = Ok rows →
  (is_cell x = false ∧ rows = rows0)
  ∨ (is_cell x = true ∧ ∃ t, cell_text_of blocks x = Ok t
     ∧ rows = <[default 1 (RowIndex x) :=
                 <[default 1 (ColumnIndex x) := strip t]>
                   (default ∅ (rows0 !! default 1 (RowIndex x)))]> rows0).
Proof.
  unfold rows_step, is_cell. destruct (String.eqb (BlockType x) "CELL").
  - destruct (cell_text_of blocks x) as [t|]; [|done]. cbn. intros [= <-].
    right. split; [done|]. exists t. split; [done|].
    destruct (rows0 !! default 1 (RowIndex x)) eqn:Hr; [by rewrite Hr|].
    rewrite lookup_insert_eq. cbn. by rewrite insert_insert_eq.
  - intros [= <-]. by left.
Qed.

(** The entry of [rows] at a row and column is the display text of the
    last cell of [cells] at that row and column. *)
Lemma rows_lookup blocks cells rows r c :
  for_each (rows_step blocks) ∅ cells = Ok rows →
  rows !! r ≫= (.!! c) = last_with (cell_at r c) cells ≫= cell_display blocks.
Proof.
  revert rows. induction cells as [|x cells IH] using rev_ind; intros rows.
  - intros [= <-]. by rewrite lookup_empty.
  - rewrite for_each_app.
    destruct (for_each (rows_step blocks) ∅ cells) as [rows0|]; [|done].
    cbn [mbind result_bind for_each].
    destruct (rows_step blocks rows0 x) as [rows1|] eqn:Hx; [|done]. cbn.
    intros [= <-]. specialize (IH rows0 eq_refl). rewrite last_with_snoc.
    apply rows_step_ok in Hx as [[Hc ->]|(Hc & t & Ht & ->)].
    + assert (cell_at r c x = false) as ->; [|done].
      unfold cell_at. by rewrite Hc.
    + assert (cell_at r c x = (default 1 (RowIndex x) =? r)
                              && (default 1 (ColumnIndex x) =? c)) as ->.
      { unfold cell_at. by rewrite Hc. }
      destruct (Z.eqb_spec (default 1 (RowIndex x)) r) as [<-|Hr].
      * rewrite lookup_insert_eq. cbn [andb mbind option_bind].
        destruct (Z.eqb_spec (default 1 (ColumnIndex x)) c) as [<-|Hcol].
        -- rewrite lookup_insert_eq. cbn [mbind option_bind].
           unfold cell_display. by rewrite Ht.
        -- rewrite lookup_insert_ne by done. rewrite <- IH.
           by destruct (rows0 !! default 1 (RowIndex x)).
      * rewrite lookup_insert_ne by done. by rewrite IH.
Qed.

(** No row of [rows] is empty. *)
Lemma rows_nonempty blocks cells rows r row :
  for_each (rows_step blocks) ∅ cells = Ok rows →
  rows !! r = Some row → row ≠ ∅.
Proof.
  intros Hrows. revert r row.
  apply (for_each_invariant
           (λ rows, ∀ r row, rows !! r = Some row → row ≠ ∅)
           (rows_step blocks) ∅ cells rows); [|done|done].
  intros rows0 x rows1 _ IH [[_ ->]|(_ & t & _ & ->)]%rows_step_ok; [done|].
  intros r row. destruct (decide (default 1 (RowIndex x) = r)) as [<-|Hr].
  - rewrite lookup_insert_eq. intros [= <-]. apply insert_non_empty.
  - rewrite lookup_insert_ne by done. apply IH.
Qed.

Lemma last_with_filter p q (l : list block) :
  last_with p (List.filter q l) = last_with (λ b, q b && p b) l.
Proof.
  induction l as [|x l IH] using rev_ind; [done|].
  rewrite List.filter_app. cbn. destruct (q x) eqn:Hq.
  - by rewrite !last_with_snoc, Hq, IH.
  - by rewrite app_nil_r, last_with_snoc, Hq, IH.
Qed.

(** A row index is in [rows] only when a CELL block that the relationship
    lists carries it. *)
Lemma rows_provenance blocks rel rows r :
  rel_rows blocks rel = Ok rows → is_Some (rows !! r) →
  ∃ cell, cell ∈ blocks ∧ Id cell ∈ Ids rel ∧ BlockType cell = "CELL"
          ∧ default 1 (RowIndex cell) = r.
Proof.
  intros Hrows [row Hrow]. unfold rel_rows in Hrows.
  pose proof (rows_nonempty _ _ _ _ _ Hrows Hrow) as Hne.
  destruct (map_choose row Hne) as (c & t & Hc).
  pose proof (rows_lookup _ _ _ r c Hrows) as Hl. rewrite Hrow in Hl. cbn in Hl.
  rewrite Hc in Hl. unfold cells_of in Hl. rewrite last_with_filter in Hl.
  destruct (last_with _ blocks) as [cell|] eqn:Hlast; [|done].
  apply last_with_elem in Hlast as [Hin Hp]. exists cell.
  apply andb_true_iff in Hp as [Hid Hat]. unfold cell_at in Hat.
  apply andb_true_iff in Hat as [[Hcell Hr%Z.eqb_eq]%andb_true_iff _].
  repeat split; [done| |by apply String.eqb_eq|done].
  by apply bool_decide_eq_true in Hid.
Qed.

(** ** Grids *)

Lemma for_each_skip {A S} (body : S → A → result S) (s : S) (l : list A) :
  (∀ x, x ∈ l → body s x = Ok s) → for_each body s l = Ok s.
Proof.
  induction l as [|x l IH]; intros Hb; cbn; [done|].
  rewrite Hb by left. cbn. apply IH. intros ??. apply Hb. by right.
Qed.

Lemma cells_of_elem blocks ids b :
  b ∈ cells_of blocks ids ↔ b ∈ blocks ∧ Id b ∈ ids.
Proof.
  unfold cells_of. rewrite !list_elem_of_In, filter_In, bool_decide_eq_true.
  by rewrite !list_elem_of_In.
Qed.

Lemma rel_rows_no_cells blocks rel :
  (∀ b, b ∈ blocks → Id b ∈ Ids rel → BlockType b ≠ "CELL") →
  rel_rows blocks rel = Ok ∅.
Proof.
  intros Hno. apply for_each_skip. intros b [Hb Hid]%cells_of_elem.
  unfold rows_step. by rewrite (proj2 (String.eqb_neq _ _) (Hno b Hb Hid)).
Qed.

Lemma table_of_no_cells blocks tb :
  (∀ rel b, rel ∈ default [] (Relationships tb) → Type_ rel = "CHILD" →
            b ∈ blocks → Id b ∈ Ids rel → BlockType b ≠ "CELL") →
  table_of blocks tb = Ok [].
Proof.
  intros Hno. unfold table_of.
  destruct (Relationships tb) as [rels|]; [|done]. cbn in Hno.
  apply for_each_skip. intros rel Hrel. rewrite table_rel_eq.
  destruct (String.eqb_spec (Type_ rel) "CHILD") as [Hc|]; [|done].
  rewrite rel_rows_no_cells by eauto. cbn. by rewrite emit_rows_empty.
Qed.

Lemma emit_rows_rows_nonempty (rows : gmap Z (gmap Z string)) :
  (∀ r row, rows !! r = Some row → row ≠ ∅) →
  Forall (λ row, row ≠ []) (emit_rows rows).
Proof.
  intros Hne. apply Forall_forall. intros cells. unfold emit_rows.
  intros (r & -> & Hr)%list_elem_of_fmap. apply sorted_keys_elem in Hr as [row Hrow].
  rewrite Hrow. cbn. intros Hnil%(f_equal length).
  rewrite emit_row_length in Hnil. apply map_size_empty_iff in Hnil.
  by eapply Hne.
Qed.

Lemma table_of_rows_nonempty blocks tb tbl :
  table_of blocks tb = Ok tbl → Forall (λ row, row ≠ []) tbl.
Proof.
  unfold table_of. destruct (Relationships tb) as [rels|]; [|by intros [= <-]].
  apply for_each_invariant; [|done].
  intros tbl0 rel tbl1 _ IH. rewrite table_rel_eq.
  destruct (String.eqb (Type_ rel) "CHILD"); [|by intros [= <-]].
  destruct (rel_rows blocks rel) as [rows|] eqn:Hrows; [|done]. cbn.
  intros [= <-]. apply Forall_app. split; [done|].
  apply emit_rows_rows_nonempty. intros r row.
  by apply (rows_nonempty blocks (cells_of blocks (Ids rel))).
Qed.

Lemma table_blocks_app l1 l2 :
  table_blocks (l1 ++ l2) = table_blocks l1 ++ table_blocks l2.
Proof. apply List.filter_app. Qed.

(** C9. A TABLE block none of whose CHILD targets resolves to a CELL block
    builds the empty grid, and the loop over the table blocks passes over
    it: the tables sequence is the one the other table blocks give. *)
Theorem empty_table_dropped (blocks : list block) (tb : block) :
  (∀ rel b, rel ∈ default [] (Relationships tb) → Type_ rel = "CHILD" →
            b ∈ blocks → Id b ∈ Ids rel → BlockType b ≠ "CELL") →
  table_of blocks tb = Ok []
  ∧ (∀ tables, tables_step blocks tables tb = Ok tables)
  ∧ (∀ t1 t2, extract_tables_from blocks (t1 ++ tb :: t2)
              = extract_tables_from blocks (t1 ++ t2))
  ∧ (∀ l1 l2, blocks = l1 ++ tb :: l2 →
              extract_tables blocks
              = extract_tables_from blocks (table_blocks l1 ++ table_blocks l2)).
Proof.
  intros Hno. pose proof (table_of_no_cells blocks tb Hno) as Htb.
  assert (∀ tables, tables_step blocks tables tb = Ok tables) as Hstep.
  { intros tables. unfold tables_step. by rewrite Htb. }
  assert (∀ t1 t2, extract_tables_from blocks (t1 ++ tb :: t2)
                   = extract_tables_from blocks (t1 ++ t2)) as Hfrom.
  { intros t1 t2. unfold extract_tables_from. rewrite !for_each_app.
    destruct (for_each (tables_step blocks) [] t1) as [tables|]; [|done].
    cbn [mbind result_bind for_each]. by rewrite Hstep. }
  repeat split; [done..|].
  intros l1 l2 ->. unfold extract_tables.
  rewrite table_blocks_app. unfold table_blocks at 2. cbn [List.filter].
  destruct (String.eqb (BlockType tb) "TABLE"); [apply Hfrom|done].
Qed.

Definition wordy_table : list block :=
  [ table "t0" [child ["w"; "nowhere"]]; word "w" "stray";
    table "t1" [child ["c"]]; cell "c" 1 1 [child ["w"]] ].

Lemma empty_table_dropped_witness :
  table_of wordy_table (table "t0" [child ["w"; "nowhere"]]) = Ok []
  ∧ extract_tables wordy_table
    = extract_tables_from wordy_table [table "t1" [child ["c"]]].
Proof.
  destruct (empty_table_dropped wordy_table (table "t0" [child ["w"; "nowhere"]]))
    as (Hgrid & _ & _ & Hout).
  - intros rel b ->%list_elem_of_singleton _ Hb Hid. cbn in Hid.
    apply elem_of_cons in Hid as [Hid|Hid%list_elem_of_singleton].
    + repeat (apply elem_of_cons in Hb as [->|Hb]); try done.
      by apply elem_of_nil in Hb.
    + repeat (apply elem_of_cons in Hb as [->|Hb]); try done.
      by apply elem_of_nil in Hb.
  - split; [done|]. exact (Hout [] (tail wordy_table) eq_refl).
Defined.

(** C10. Every grid of the tables sequence has a row, and every row of
    every grid has a cell: a table that gathers no row is not emitted, and a
    row index enters [rows] only with a cell, so only when a CELL block that
    the relationship lists carries that row index. *)
Theorem grids_nonempty (blocks : list block)
    (tables : list (list (list string))) (rel : relationship)
    (rows : gmap Z (gmap Z string)) (r : Z) :
  (extract_tables blocks = Ok tables →
   Forall (λ grid, grid ≠ [] ∧ Forall (λ row, row ≠ []) grid) tables)
  ∧ (rel_rows blocks rel = Ok rows → is_Some (rows !! r) →
     (∃ row, rows !! r = Some row ∧ row ≠ ∅)
     ∧ ∃ cell, cell ∈ blocks ∧ Id cell ∈ Ids rel ∧ BlockType cell = "CELL"
               ∧ default 1 (RowIndex cell) = r).
Proof.
  split.
  - apply for_each_invariant; [|done].
    intros tables0 tb tables1 _ IH. unfold tables_step.
    destruct (table_of blocks tb) as [tbl|] eqn:Htb; [|done]. cbn.
    apply table_of_rows_nonempty in Htb.
    destruct tbl as [|row tbl]; intros [= <-]; [done|].
    apply Forall_app. split; [done|].
    apply Forall_cons. split; [done|]. by apply Forall_nil.
  - intros Hrows Hr. split; [|by eapply rows_provenance].
    destruct Hr as [row Hrow]. exists row. split; [done|].
    by apply (rows_nonempty blocks (cells_of blocks (Ids rel)) rows r).
Qed.

Lemma grids_nonempty_witness :
  Forall (λ grid, grid ≠ [] ∧ Forall (λ row : list string, row ≠ []) grid)
    [[["A"; "B"]; ["C"]]]
  ∧ ∃ cell, cell ∈ grid3 ∧ Id cell ∈ ["a"; "b"; "c"] ∧ BlockType cell = "CELL"
            ∧ default 1 (RowIndex cell) = 2.
Proof.
  destruct (grids_nonempty grid3 [[["A"; "B"]; ["C"]]] (child ["a"; "b"; "c"])
              {[ 1 := {[ 1 := "A"; 2 := "B" ]}; 2 := {[ 1 := "C" ]} ]} 2)
    as [Hgrids Hrows].
  split.
  - apply Hgrids. vm_compute. reflexivity.
  - apply Hrows; [vm_compute; reflexivity|by eexists].
Defined.

(** ** The grid of a table *)

(** The CHILD relationships of a block, in listed order. *)
Definition child_rels (b : block) : list relationship :=
  List.filter (λ r, String.eqb (Type_ r) "CHILD") (default [] (Relationships b)).

(** [f] on every element, stopping at the first exception. *)
Fixpoint all_ok {A B} (f : A → result B) (l : list A) : result (list B) :=
  match l with
  | [] => Ok []
  | x :: l' => y ← f x; ys ← all_ok f l'; Ok (y :: ys)
  end.

Lemma for_each_all_ok {A B C} (f : A → result B) (g : B → list C)
    (acc : list C) (l : list A) :
  for_each (λ acc x, y ← f x; Ok (acc ++ g y)) acc l
  = result_map (λ ys, acc ++ concat (g <$> ys)) (all_ok f l).
Proof.
  revert acc. induction l as [|x l IH]; intros acc; cbn.
  - by rewrite app_nil_r.
  - destruct (f x) as [y|]; cbn; [|done]. rewrite IH.
    destruct (all_ok f l) as [ys|]; cbn; [|done]. by rewrite app_assoc.
Qed.

(** The grid of a table is the rows of its CHILD relationships, one
    relationship after the other. *)
Lemma table_of_child_rels blocks tb :
  table_of blocks tb
  = result_map (λ rowss, concat (emit_rows <$> rowss))
      (all_ok (rel_rows blocks) (child_rels tb)).
Proof.
  etrans;
    [|exact (for_each_all_ok (rel_rows blocks) emit_rows [] (child_rels tb))].
  unfold table_of, child_rels. destruct (Relationships tb) as [rels|]; [|done].
  cbn [default].
  rewrite (for_each_filter (λ r, String.eqb (Type_ r) "CHILD")).
  - apply for_each_ext. intros tbl rel [_ Hc]%list_elem_of_In%filter_In.
    by rewrite table_rel_eq, Hc.
  - intros tbl rel Hc. by rewrite table_rel_eq, Hc.
Qed.

(** The grid as the specification words it: the CELL blocks that the CHILD
    targets resolve to, taken in listed order, grouped into one dict for the
    table, emitted by ascending row and column. *)
Definition spec_cells (blocks : list block) (tb : block) : list block :=
  List.filter is_cell (omap (λ id, last_with (has_id id) blocks) (child_ids tb)).

Definition spec_table_of (blocks : list block) (tb : block)
  : result (list (list string)) :=
  result_map emit_rows (for_each (rows_step blocks) ∅ (spec_cells blocks tb)).

Definition split_table : list block :=
  [ table "t" [child ["x"]; child ["y"]];
    cell "x" 2 1 [child ["wx"]]; cell "y" 1 1 [child ["wy"]];
    word "wx" "X"; word "wy" "Y" ].

(** C3, as stated, fails: [rows] is sorted and emitted once per CHILD
    relationship, so the row at index 2 that the first relationship lists
    comes before the row at index 1 that the second one lists. *)
Lemma rows_out_of_order :
  extract_tables split_table = Ok [[["X"]; ["Y"]]]
  ∧ table_of split_table (table "t" [child ["x"]; child ["y"]])
    = Ok [["X"]; ["Y"]]
  ∧ spec_table_of split_table (table "t" [child ["x"]; child ["y"]])
    = Ok [["Y"]; ["X"]].
Proof. repeat split; vm_compute; reflexivity. Qed.

(** [ks] is the keys of [d] in ascending order, each once. *)
Definition ascending_keys {V} (d : gmap Z V) (ks : list Z) : Prop :=
  StronglySorted Z.lt ks ∧ ∀ k, k ∈ ks ↔ is_Some (d !! k).

(** [grid] has one row for each row index of [rows], in ascending order,
    and its row for a row index has one cell for each column index present
    in that row, in ascending order: the text at that row and column. *)
Definition grid_of (rows : gmap Z (gmap Z string))
    (grid : list (list string)) : Prop :=
  ∃ rs, ascending_keys rows rs ∧ length grid = length rs
    ∧ ∀ i r, rs !! i = Some r →
        ∃ row cs cells,
          rows !! r = Some row ∧ grid !! i = Some cells
          ∧ ascending_keys row cs ∧ length cells = length cs
          ∧ ∀ j c, cs !! j = Some c → cells !! j = row !! c.

Lemma sorted_keys_ascending {V} (d : gmap Z V) :
  ascending_keys d (sorted_keys d).
Proof. split; [apply sorted_keys_sorted|apply sorted_keys_elem]. Qed.

Lemma emit_rows_grid_of (rows : gmap Z (gmap Z string)) :
  grid_of rows (emit_rows rows).
Proof.
  exists (sorted_keys rows). split; [apply sorted_keys_ascending|].
  split; [by rewrite emit_rows_length, sorted_keys_length|].
  intros i r Hi. destruct (emit_rows_lookup rows i r Hi) as (row & Hrow & Hemit).
  exists row, (sorted_keys row), (emit_row row).
  do 2 (split; [done|]). split; [apply sorted_keys_ascending|].
  split; [by rewrite emit_row_length, sorted_keys_length|].
  apply emit_row_lookup.
Qed.

(** The grid of a table with one CHILD relationship, whatever other
    relationships it has. *)
Lemma table_of_one_child blocks tb rel :
  child_rels tb = [rel] →
  table_of blocks tb = result_map emit_rows (rel_rows blocks rel).
Proof.
  intros Hrels. rewrite table_of_child_rels, Hrels. cbn.
  destruct (rel_rows blocks rel); cbn; [|done]. by rewrite app_nil_r.
Qed.

(** C3 (amended). The rows that one CHILD relationship of a table appends
    to the grid run through the row indices of [rows] in ascending order,
    each once, and each row through exactly the column indices present in
    it, in ascending order, with no padding.  A table with one CHILD
    relationship has these rows as its grid: cells at (1,1), (1,2) and
    (2,1) give a second row of length 1.  The rows of further CHILD
    relationships come after those of earlier ones. *)
Theorem grid_rows_ascending (blocks : list block) (tb : block)
    (tbl tbl' : list (list string)) (rel : relationship) :
  (Type_ rel = "CHILD" → table_rel blocks tbl rel = Ok tbl' →
   ∃ rows, rel_rows blocks rel = Ok rows ∧ tbl' = tbl ++ emit_rows rows
     ∧ grid_of rows (emit_rows rows)
     ∧ StronglySorted Z.lt (sorted_keys rows)
     ∧ (∀ r, r ∈ sorted_keys rows ↔ is_Some (rows !! r))
     ∧ length (emit_rows rows) = length (sorted_keys rows)
     ∧ ∀ i r, sorted_keys rows !! i = Some r →
         ∃ row, rows !! r = Some row
           ∧ emit_rows rows !! i = Some (emit_row row)
           ∧ StronglySorted Z.lt (sorted_keys row)
           ∧ (∀ c, c ∈ sorted_keys row ↔ is_Some (row !! c))
           ∧ length (emit_row row) = size row
           ∧ ∀ j c, sorted_keys row !! j = Some c →
               emit_row row !! j = row !! c)
  ∧ (child_rels tb = [rel] →
     table_of blocks tb = result_map emit_rows (rel_rows blocks rel)
     ∧ ∀ grid, table_of blocks tb = Ok grid →
         ∃ rows, rel_rows blocks rel = Ok rows ∧ grid_of rows grid)
  ∧ table_of blocks tb
    = result_map (λ rowss, concat (emit_rows <$> rowss))
        (all_ok (rel_rows blocks) (child_rels tb))
  ∧ extract_tables grid3 = Ok [[["A"; "B"]; ["C"]]].
Proof.
  split; [|split; [|split]].
  - intros Hc. rewrite table_rel_eq, Hc. cbn.
    destruct (rel_rows blocks rel) as [rows|]; [|done]. cbn. intros [= <-].
    exists rows. split; [done|]. split; [done|].
    split; [apply emit_rows_grid_of|].
    split; [apply sorted_keys_sorted|]. split; [apply sorted_keys_elem|].
    split; [by rewrite emit_rows_length, sorted_keys_length|].
    intros i r Hi. destruct (emit_rows_lookup rows i r Hi) as (row & Hrow & Hemit).
    exists row. split; [done|]. split; [done|].
    split; [apply sorted_keys_sorted|]. split; [apply sorted_keys_elem|].
    split; [apply emit_row_length|]. apply emit_row_lookup.
  - intros Hrels. pose proof (table_of_one_child blocks tb rel Hrels) as Htb.
    split; [done|]. intros grid. rewrite Htb.
    destruct (rel_rows blocks rel) as [rows|]; [|done]. cbn. intros [= <-].
    exists rows. split; [done|]. apply emit_rows_grid_of.
  - apply table_of_child_rels.
  - vm_compute. reflexivity.
Qed.

(** A table with a MERGED_CELL relationship beside its CHILD relationship,
    its cells out of order in the collection and in the id list. *)
Definition merged_table : block :=
  table "t" [Relationship "MERGED_CELL" ["m"]; child ["c"; "a"; "b"]].

Definition merged : list block :=
  [ cell "c" 2 1 [child ["wc"]]; merged_table;
    cell "b" 1 2 [child ["wb"]]; cell "a" 1 1 [child ["wa"]];
    Block "m" "MERGED_CELL" None None (Some 1) (Some 1) None;
    word "wa" "A"; word "wb" "B"; word "wc" "C" ].

Lemma grid_rows_ascending_witness :
  (∃ rows, rel_rows merged (child ["c"; "a"; "b"]) = Ok rows
     ∧ [["A"; "B"]; ["C"]] = [] ++ emit_rows rows
     ∧ grid_of rows (emit_rows rows))
  ∧ table_of merged merged_table = Ok [["A"; "B"]; ["C"]]
  ∧ ∃ rows, rel_rows merged (child ["c"; "a"; "b"]) = Ok rows
      ∧ grid_of rows [["A"; "B"]; ["C"]].
Proof.
  destruct (grid_rows_ascending merged merged_table [] [["A"; "B"]; ["C"]]
              (child ["c"; "a"; "b"])) as (Hrel & Htable & _).
  destruct (Htable eq_refl) as [Hgrid Hrows].
  split; [|split].
  - destruct Hrel as (rows & ? & ? & ? & _); [reflexivity|vm_compute; reflexivity|].
    by exists rows.
  - rewrite Hgrid. vm_compute. reflexivity.
  - apply Hrows. rewrite Hgrid. vm_compute. reflexivity.
Defined.

Definition cells_ab (rels : list relationship) : list block :=
  [ table "t" rels;
    cell "c1" 1 1 [child ["wa"]]; cell "c2" 1 1 [child ["wb"]];
    word "wa" "A"; word "wb" "B" ].

(** C4, as stated, fails on both counts.  The cells of a relationship are
    gathered by a pass over the collection, so of two cells at one place
    the later one of the collection wins, whatever the order of the ids; and
    [rows] starts afresh at every CHILD relationship, so cells at one place
    under two relationships both reach the grid. *)
Lemma cells_grouped_otherwise :
  (table_of (cells_ab [child ["c2"; "c1"]]) (table "t" [child ["c2"; "c1"]])
   = Ok [["B"]]
   ∧ spec_table_of (cells_ab [child ["c2"; "c1"]])
       (table "t" [child ["c2"; "c1"]])
     = Ok [["A"]])
  ∧ (table_of (cells_ab [child ["c1"]; child ["c2"]])
       (table "t" [child ["c1"]; child ["c2"]])
     = Ok [["A"]; ["B"]]
     ∧ spec_table_of (cells_ab [child ["c1"]; child ["c2"]])
         (table "t" [child ["c1"]; child ["c2"]])
       = Ok [["B"]]).
Proof. repeat split; vm_compute; reflexivity. Qed.

(** C4 (amended). Each CHILD relationship of a TABLE block has a row to
    column to text dict of its own, and the grid is the rows of these
    dicts, one relationship after the other.  The dict of a relationship
    holds, at a row and column, the text of the last block in collection
    order that the relationship lists and that is a CELL block at that row
    and column: of two such cells the later one of the collection
    overwrites the earlier one. *)
Theorem cells_grouped_per_relationship (blocks : list block) (tb : block)
    (rel : relationship) (rows : gmap Z (gmap Z string)) (r c : Z)
    (t : string) :
  table_of blocks tb
  = result_map (λ rowss, concat (emit_rows <$> rowss))
      (all_ok (rel_rows blocks) (child_rels tb))
  ∧ (rel_rows blocks rel = Ok rows →
     (rows !! r ≫= (.!! c) = Some t
      ↔ ∃ cell text,
          is_last (λ b, bool_decide (Id b ∈ Ids rel) && cell_at r c b)
            blocks cell
          ∧ cell_text_of blocks cell = Ok text ∧ t = strip text)).
Proof.
  split; [apply table_of_child_rels|].
  intros Hrows. unfold rel_rows in Hrows.
  rewrite (rows_lookup _ _ _ r c Hrows). unfold cells_of.
  rewrite last_with_filter. split.
  - destruct (last_with _ blocks) as [cell|] eqn:Hlast; [|done]. cbn.
    unfold cell_display.
    destruct (cell_text_of blocks cell) as [text|] eqn:Htext; [|done].
    intros [= <-]. exists cell, text. by rewrite <- last_with_is_last.
  - intros (cell & text & Hlast%last_with_is_last & Htext & ->).
    rewrite Hlast. cbn. unfold cell_display. by rewrite Htext.
Qed.

Lemma cells_grouped_per_relationship_witness :
  ({[ 1 := {[ 1 := "B" ]} ]} : gmap Z (gmap Z string)) !! 1 ≫= (.!! 1) = Some "B"
  ↔ ∃ cell text,
      is_last (λ b, bool_decide (Id b ∈ ["c2"; "c1"]) && cell_at 1 1 b)
        (cells_ab [child ["c2"; "c1"]]) cell
      ∧ cell_text_of (cells_ab [child ["c2"; "c1"]]) cell = Ok text
      ∧ "B" = strip text.
Proof.
  apply (cells_grouped_per_relationship (cells_ab [child ["c2"; "c1"]])
           (table "t" [child ["c2"; "c1"]]) (child ["c2"; "c1"])).
  vm_compute. reflexivity.
Defined.

(** ** Forms *)

Lemma nonempty_true (s : string) : nonempty s = true ↔ s ≠ "".
Proof. by destruct s. Qed.

Lemma forms_step_ok ix forms0 item forms1 :
  forms_step ix forms0 item = Ok forms1 →
  ∃ kt vt, form_pair ix item.2 = Ok (kt, vt)
    ∧ forms1 = if nonempty kt && nonempty vt then <[kt := vt]> forms0
               else forms0.
Proof.
  unfold forms_step. destruct (form_pair ix item.2) as [[kt vt]|]; [|done]. cbn.
  intros Hstep. exists kt, vt. split; [done|].
  destruct (nonempty kt && nonempty vt); by injection Hstep.
Qed.

(** Every entry of the mapping is the pair of some key block, both sides
    non-empty. *)
Lemma forms_provenance ix items forms kt vt :
  for_each (forms_step ix) ∅ items = Ok forms →
  forms !! kt = Some vt →
  kt ≠ "" ∧ vt ≠ ""
  ∧ ∃ k kb, (k, kb) ∈ items ∧ form_pair ix kb = Ok (kt, vt).
Proof.
  intros Hloop. revert kt vt.
  apply (for_each_invariant
           (λ forms, ∀ kt vt, forms !! kt = Some vt →
              kt ≠ "" ∧ vt ≠ ""
              ∧ ∃ k kb, (k, kb) ∈ items ∧ form_pair ix kb = Ok (kt, vt))
           (forms_step ix) ∅ items forms); [|done|done].
  intros forms0 [k kb] forms1 Hin IH (kt' & vt' & Hpair & ->)%forms_step_ok.
  intros kt vt. destruct (nonempty kt' && nonempty vt') eqn:Hne; [|apply IH].
  destruct (decide (kt' = kt)) as [->|Hkt].
  - rewrite lookup_insert_eq. intros [= ->].
    apply andb_true_iff in Hne as [?%nonempty_true ?%nonempty_true].
    split; [done|]. split; [done|]. by exists k, kb.
  - rewrite lookup_insert_ne by done. apply IH.
Qed.

(** The pair of a key block stays in the mapping unless a later key block
    with the same key text and a non-empty value text overwrites it. *)
Lemma forms_last_wins ix items1 k kb items2 forms kt vt :
  for_each (forms_step ix) ∅ (items1 ++ (k, kb) :: items2) = Ok forms →
  form_pair ix kb = Ok (kt, vt) → kt ≠ "" → vt ≠ "" →
  (∀ k' kb' vt', (k', kb') ∈ items2 → form_pair ix kb' = Ok (kt, vt') →
                 vt' = "") →
  forms !! kt = Some vt.
Proof.
  intros Hloop Hpair Hkt Hvt Hlater. rewrite for_each_app in Hloop.
  destruct (for_each (forms_step ix) ∅ items1) as [forms0|]; [|done].
  cbn [mbind result_bind for_each] in Hloop.
  destruct (forms_step ix forms0 (k, kb)) as [forms1|] eqn:Hstep; [|done].
  cbn [mbind result_bind] in Hloop.
  apply forms_step_ok in Hstep as (kt0 & vt0 & Hpair0 & ->).
  cbn [snd] in Hpair0. rewrite Hpair in Hpair0. injection Hpair0 as <- <-.
  rewrite (proj2 (nonempty_true kt) Hkt), (proj2 (nonempty_true vt) Hvt) in Hloop.
  cbn [andb] in Hloop.
  apply (for_each_invariant (λ forms, forms !! kt = Some vt)
           (forms_step ix) (<[kt := vt]> forms0) items2 forms);
    [|apply lookup_insert_eq|done].
  intros forms2 [k' kb'] forms3 Hin IH (kt' & vt' & Hpair' & ->)%forms_step_ok.
  destruct (nonempty kt' && nonempty vt') eqn:Hne; [|done].
  cbn [snd] in Hpair'. destruct (decide (kt' = kt)) as [->|Hne'].
  - apply andb_true_iff in Hne as [_ Hvt'%nonempty_true].
    by specialize (Hlater k' kb' vt' Hin Hpair').
  - by rewrite lookup_insert_ne.
Qed.

Lemma od_insert_fresh {V} k (v : V) (d : list (string * V)) :
  k ∉ d.*1 → od_insert k v d = d ++ [(k, v)].
Proof.
  induction d as [|[k' v'] d IH]; cbn; [done|].
  intros [Hk Hd]%not_elem_of_cons.
  rewrite (proj2 (String.eqb_neq k' k)) by done. by rewrite IH.
Qed.

(** When no two blocks share an id, [key_map] holds the key-side blocks of
    the collection, in collection order. *)
Lemma index_blocks_key_map_nodup blocks ix :
  NoDup (Id <$> blocks) → index_blocks blocks = Ok ix →
  key_map ix = (λ b, (Id b, b)) <$> List.filter is_key blocks.
Proof.
  revert ix. induction blocks as [|b blocks IH] using rev_ind; intros ix Hnd.
  - by intros [= <-].
  - intros Hix. pose proof Hix as Hix'. unfold index_blocks in Hix.
    rewrite for_each_app in Hix.
    destruct (for_each index_block empty_index blocks) as [ix0|] eqn:H0; [|done].
    cbn [mbind result_bind for_each] in Hix.
    destruct (index_block ix0 b) as [ix1|] eqn:H1; [|done]. cbn in Hix.
    injection Hix as <-. apply index_block_ok in H1 as (_ & _ & ->).
    rewrite fmap_app in Hnd. apply NoDup_app in Hnd as (Hnd & Hfresh & _).
    rewrite List.filter_app, fmap_app, <- (IH ix0 Hnd H0). cbn.
    destruct (is_key b); [|by rewrite app_nil_r].
    apply od_insert_fresh. intros ([k kb] & Hk & Hin)%list_elem_of_fmap.
    cbn in Hk. subst k. destruct (index_blocks_key_map blocks ix0 _ kb H0 Hin)
      as (Hkb & Hid & _).
    apply (Hfresh (Id b)); [|by left].
    rewrite <- Hid. by apply list_elem_of_fmap_2.
Qed.

Definition same_key : list block :=
  [ key_block "k1" [child ["w"]; value ["v1"]];
    key_block "k2" [child ["w"]; value ["v2"]];
    value_block "v1" [child ["w1"]]; value_block "v2" [child ["w2"]];
    word "w" "Total"; word "w1" "1"; word "w2" "2" ].

(** C2, as stated, fails: the mapping is keyed by the key text, so of two
    key blocks with one key text only the pair of the later one is in it. *)
Lemma same_key_text_overwrites :
  form_pair (index_of same_key) (key_block "k1" [child ["w"]; value ["v1"]])
  = Ok ("Total", "1")
  ∧ extract_forms same_key = Ok {[ "Total" := "2" ]}
  ∧ ({[ "Total" := "2" ]} : gmap string string) !! "Total" ≠ Some "1".
Proof. repeat split; [vm_compute; reflexivity..|vm_compute; discriminate]. Qed.

(** C2 (amended). The forms mapping holds the pair (key text, value text)
    of every key block of [key_map] that finds a value block and has a
    non-empty text on both sides, unless a key block later in [key_map] has
    the same key text and a non-empty value text, which then overwrites
    it.  Every entry of the mapping is the pair of a key-side
    KEY_VALUE_SET block with both texts non-empty, so a key block with an
    empty side contributes no entry.  When no two blocks share an id,
    [key_map] is the key-side blocks in collection order. *)
Theorem form_pairs (blocks : list block) (ix : index)
    (forms : gmap string string) :
  index_blocks blocks = Ok ix →
  extract_forms blocks = Ok forms →
  (∀ items1 k kb items2 vb kt vt,
     key_map ix = items1 ++ (k, kb) :: items2 →
     find_value_block kb (value_map ix) = Some vb →
     get_text kb (block_map ix) = Ok kt →
     get_text vb (block_map ix) = Ok vt →
     kt ≠ "" → vt ≠ "" →
     (∀ k' kb' vt', (k', kb') ∈ items2 →
                    form_pair ix kb' = Ok (kt, vt') → vt' = "") →
     forms !! kt = Some vt)
  ∧ (∀ kt vt, forms !! kt = Some vt →
       kt ≠ "" ∧ vt ≠ ""
       ∧ ∃ k kb, (k, kb) ∈ key_map ix ∧ kb ∈ blocks ∧ is_key kb = true
                 ∧ form_pair ix kb = Ok (kt, vt))
  ∧ (NoDup (Id <$> blocks) →
     key_map ix = (λ b, (Id b, b)) <$> List.filter is_key blocks).
Proof.
  intros Hix Hforms. unfold extract_forms in Hforms. rewrite Hix in Hforms.
  cbn [mbind result_bind] in Hforms. split; [|split].
  - intros items1 k kb items2 vb kt vt Hkm Hvb Hkt Hvt Hk Hv Hlater.
    rewrite Hkm in Hforms. eapply forms_last_wins; [done| |done..].
    unfold form_pair. by rewrite Hvb, Hkt, Hvt.
  - intros kt vt Hl.
    destruct (forms_provenance ix _ forms kt vt Hforms Hl)
      as (Hk & Hv & k & kb & Hin & Hpair).
    split; [done|]. split; [done|]. exists k, kb.
    destruct (index_blocks_key_map blocks ix k kb Hix Hin) as (? & _ & ?).
    done.
  - intros Hnd. by apply index_blocks_key_map_nodup.
Qed.

Lemma form_pairs_witness :
  ({[ "Total" := "2" ]} : gmap string string) !! "Total" = Some "2"
  ∧ key_map (index_of same_key)
    = (λ b, (Id b, b)) <$> List.filter is_key same_key.
Proof.
  destruct (form_pairs same_key (index_of same_key) {[ "Total" := "2" ]})
    as (Hcontains & _ & Hkeys); [vm_compute; reflexivity..|].
  split.
  - apply (Hcontains [("k1", key_block "k1" [child ["w"]; value ["v1"]])]
             "k2" (key_block "k2" [child ["w"]; value ["v2"]]) []
             (value_block "v2" [child ["w2"]]) "Total" "2");
      try (vm_compute; reflexivity); try done.
    by intros ??? ?%elem_of_nil.
  - apply Hkeys. vm_compute.
    repeat (apply NoDup_cons; split;
            [intros Hin; repeat (apply elem_of_cons in Hin as [Hin|Hin];
                                 [discriminate Hin|]);
             by apply elem_of_nil in Hin|]).
    apply NoDup_nil_2.
Defined.


(** * Further properties of the extractors *)

(** ** When an extractor raises *)

(** A loop that raises does so in one of its steps. *)
Lemma for_each_raise {A S} (body : S → A → result S) (s : S) (l : list A) e :
  for_each body s l = Raise e → ∃ s' x, x ∈ l ∧ body s' x = Raise e.
Proof.
  revert s. induction l as [|x l IH]; intros s; cbn [for_each]; [done|].
  destruct (body s x) as [s1|e1] eqn:Hx; cbn.
  - intros (s' & y & Hy & Hb)%IH. exists s', y. split; [by right|done].
  - intros [= ->]. exists s, x. split; [by left|done].
Qed.

(** X1. The text assembly raises exactly when some LINE block has no
    ['Text'], and what it raises then is [KeyError('Text')]; blocks of other
    types without a text do no harm. *)
Theorem extract_text_raise_iff (blocks : list block) (e : error) :
  extract_text blocks = Raise e
  ↔ e = KeyError "Text"
    ∧ Exists (λ b, BlockType b = "LINE" ∧ Text b = None) blocks.
Proof.
  split.
  - unfold extract_text.
    destruct (for_each extract_text_step [] blocks) as [ts|e'] eqn:Hloop; [done|].
    cbn. intros [= ->].
    apply for_each_raise in Hloop as (acc & b & Hb & Hstep).
    rewrite extract_text_step_eq in Hstep. unfold is_line in Hstep.
    destruct (String.eqb_spec (BlockType b) "LINE") as [Hl|]; [|done].
    destruct (Text b) as [t|] eqn:Ht; [done|]. cbn in Hstep.
    injection Hstep as <-. split; [done|]. apply Exists_exists. by exists b.
  - intros [-> Hex]. unfold extract_text. by rewrite extract_text_raises.
Qed.

(** A block of the collection that is a WORD without a ['Text']. *)
Definition textless_word (blocks : list block) : Prop :=
  Exists (λ w, BlockType w = "WORD" ∧ Text w = None) blocks.

Lemma collect_raise (lk : string → option block) ids acc e :
  for_each (collect_id lk) acc ids = Raise e →
  e = KeyError "Text"
  ∧ ∃ id w, lk id = Some w ∧ BlockType w = "WORD" ∧ Text w = None.
Proof.
  intros (text & id & _ & Hstep)%for_each_raise. rewrite collect_id_eq in Hstep.
  destruct (lk id) as [w|] eqn:Hw; [|done]. unfold is_word in Hstep.
  destruct (String.eqb_spec (BlockType w) "WORD") as [Hb|]; [|done].
  destruct (Text w) as [t|] eqn:Ht; [done|]. cbn in Hstep.
  injection Hstep as <-. split; [done|]. by exists id, w.
Qed.

Lemma get_text_raise blocks ix b e :
  index_blocks blocks = Ok ix →
  get_text b (block_map ix) = Raise e →
  e = KeyError "Text" ∧ textless_word blocks.
Proof.
  intros Hix. rewrite get_text_collect.
  destruct (for_each _ _ _) as [text|e'] eqn:Hloop; [done|]. cbn.
  intros [= ->]. apply collect_raise in Hloop as (-> & id & w & Hw & Hb & Ht).
  split; [done|]. apply Exists_exists. exists w. split; [|done].
  destruct (index_blocks_lookup blocks ix id Hix) as [Hl _].
  rewrite Hw in Hl. symmetry in Hl. by apply last_with_elem in Hl as [??].
Qed.

Lemma table_of_raise blocks tb e :
  table_of blocks tb = Raise e → e = KeyError "Text" ∧ textless_word blocks.
Proof.
  unfold table_of. destruct (Relationships tb) as [rels|]; [|done].
  intros (tbl & rel & _ & Hrel)%for_each_raise. rewrite table_rel_eq in Hrel.
  destruct (String.eqb (Type_ rel) "CHILD"); [|done].
  destruct (rel_rows blocks rel) as [rows|e'] eqn:Hrows; [done|].
  cbn in Hrel. injection Hrel as ->.
  apply for_each_raise in Hrows as (rows & c & _ & Hstep).
  unfold rows_step in Hstep.
  destruct (String.eqb (BlockType c) "CELL"); [|done].
  destruct (cell_text_of blocks c) as [t|e'] eqn:Htext; [done|].
  cbn in Hstep. injection Hstep as ->. rewrite cell_text_collect in Htext.
  apply collect_raise in Htext as (-> & id & w & Hw & Hb & Ht).
  split; [done|]. apply Exists_exists. exists w. split; [|done].
  by apply find_block_elem in Hw as [??].
Qed.

(** X2. The form extractor raises only [KeyError('EntityTypes')], with a
    KEY_VALUE_SET block that has no ['EntityTypes'] in the collection, or
    [KeyError('Text')], with a WORD block that has no ['Text'] in it; the
    table extractor raises only the latter. *)
Theorem extractor_raise_causes (blocks : list block) (e : error) :
  (extract_forms blocks = Raise e →
   (e = KeyError "EntityTypes"
    ∧ Exists (λ b, BlockType b = "KEY_VALUE_SET" ∧ EntityTypes b = None) blocks)
   ∨ (e = KeyError "Text" ∧ textless_word blocks))
  ∧ (extract_tables blocks = Raise e →
     e = KeyError "Text" ∧ textless_word blocks).
Proof.
  split.
  - unfold extract_forms.
    destruct (index_blocks blocks) as [ix|e'] eqn:Hix; cbn.
    + intros (forms & [k kb] & _ & Hstep)%for_each_raise. right.
      unfold forms_step, form_pair in Hstep. cbn [snd] in Hstep.
      destruct (get_text kb (block_map ix)) as [kt|e'] eqn:Hkt.
      * cbn in Hstep.
        destruct (find_value_block kb (value_map ix)) as [vb|]; cbn in Hstep.
        -- destruct (get_text vb (block_map ix)) as [vt|e'] eqn:Hvt.
           ++ cbn in Hstep. by destruct (nonempty kt && nonempty vt).
           ++ cbn in Hstep. injection Hstep as ->. by eapply get_text_raise.
        -- by destruct (nonempty kt).
      * cbn in Hstep. injection Hstep as ->. by eapply get_text_raise.
    + intros [= ->]. left.
      apply for_each_raise in Hix as (ix & b & Hb & Hstep).
      rewrite index_block_eq in Hstep. unfold is_kvs in Hstep. cbv zeta in Hstep.
      destruct (String.eqb_spec (BlockType b) "KEY_VALUE_SET") as [Hk|]; [|done].
      destruct (EntityTypes b) as [roles|] eqn:Hr; cbn in Hstep.
      * by destruct (bool_decide ("KEY" ∈ roles)).
      * injection Hstep as <-. split; [done|]. apply Exists_exists. by exists b.
  - intros (tables & tb & _ & Hstep)%for_each_raise. unfold tables_step in Hstep.
    destruct (table_of blocks tb) as [tbl|e'] eqn:Htb.
    + cbn in Hstep. by destruct tbl.
    + cbn in Hstep. injection Hstep as ->. by eapply table_of_raise.
Qed.

Definition textless : list block :=
  [ key_block "k" [child ["w"]]; table "t" [child ["c"]];
    cell "c" 1 1 [child ["w"]]; Block "w" "WORD" None None None None None ].

Lemma extractor_raise_causes_witness :
  ((KeyError "Text" = KeyError "EntityTypes"
    ∧ Exists (λ b, BlockType b = "KEY_VALUE_SET" ∧ EntityTypes b = None)
        textless)
   ∨ (KeyError "Text" = KeyError "Text" ∧ textless_word textless))
  ∧ (KeyError "Text" = KeyError "Text" ∧ textless_word textless).
Proof.
  destruct (extractor_raise_causes textless (KeyError "Text")) as [Hf Ht].
  split; [apply Hf|apply Ht]; vm_compute; reflexivity.
Defined.

(** ** Pairing a key with its value *)

(** The ids a block lists under its VALUE relationships, in listed order. *)
Definition value_ids (b : block) : list string :=
  match Relationships b with
  | Some rels =>
      flat_map (λ r, if String.eqb (Type_ r) "VALUE" then Ids r else []) rels
  | None => []
  end.

Lemma find_value_id_head ids (vm : gmap string block) :
  find_value_id ids vm = head (omap (λ id, vm !! id) ids).
Proof.
  induction ids as [|id ids IH]; [done|]. cbn. by destruct (vm !! id).
Qed.

Lemma head_app_omap {A B} (f : A → option B) (l1 l2 : list A) :
  head (omap f (l1 ++ l2))
  = match head (omap f l1) with
    | Some y => Some y
    | None => head (omap f l2)
    end.
Proof.
  induction l1 as [|x l1 IH]; [by destruct (head _)|]. cbn.
  by destruct (f x).
Qed.

Lemma find_value_block_head kb (vm : gmap string block) :
  find_value_block kb vm = head (omap (λ id, vm !! id) (value_ids kb)).
Proof.
  unfold find_value_block, value_ids.
  destruct (Relationships kb) as [rels|]; [|done].
  induction rels as [|r rels IH]; [done|]. cbn [find_value_rels flat_map].
  rewrite head_app_omap. destruct (String.eqb (Type_ r) "VALUE"); [|done].
  by rewrite find_value_id_head, IH.
Qed.

(** X3. A key block pairs with the block that the first of its VALUE
    targets, in listed order, found in [value_map] stands for.  That block
    is a KEY_VALUE_SET block of the collection without the KEY role, the
    last one to bear its id: a VALUE target that is a key block, or a block
    of another type, is passed over. *)
Theorem value_block_pairing (blocks : list block) (ix : index)
    (kb vb : block) (vm : gmap string block) :
  find_value_block kb vm = head (omap (λ id, vm !! id) (value_ids kb))
  ∧ (index_blocks blocks = Ok ix →
     find_value_block kb (value_map ix) = Some vb →
     vb ∈ blocks ∧ is_value vb = true ∧ Id vb ∈ value_ids kb
     ∧ is_last (λ b, has_id (Id vb) b && is_value b) blocks vb).
Proof.
  split; [apply find_value_block_head|].
  intros Hix. rewrite find_value_block_head. intros Hhead.
  apply head_Some_elem_of, list_elem_of_omap in Hhead as (id & Hid & Hvm).
  destruct (index_blocks_lookup blocks ix id Hix) as [_ Hl].
  rewrite Hvm in Hl. symmetry in Hl.
  pose proof (last_with_elem _ _ _ Hl) as [Hin [Hb Hv]%andb_true_iff].
  apply has_id_true in Hb. subst id. repeat split; [done..|].
  by apply last_with_is_last.
Qed.

Definition rival_values : list block :=
  [ key_block "k" [child ["w"]; value ["k2"; "w"; "v"; "v2"]];
    key_block "k2" []; value_block "v" []; value_block "v2" [];
    word "w" "Name" ].

Lemma value_block_pairing_witness :
  value_block "v" [] ∈ rival_values ∧ is_value (value_block "v" []) = true
  ∧ Id (value_block "v" []) ∈ ["k2"; "w"; "v"; "v2"]
  ∧ is_last (λ b, has_id "v" b && is_value b) rival_values (value_block "v" []).
Proof.
  apply (value_block_pairing rival_values (index_of rival_values)
           (key_block "k" [child ["w"]; value ["k2"; "w"; "v"; "v2"]])
           (value_block "v" []) ∅); vm_compute; reflexivity.
Defined.

(** ** Trimmed output *)

Lemma lstrip_fixed (s : string) : starts_with_space s = false → lstrip s = s.
Proof. destruct s as [|c s]; [done|]. cbn. by intros ->. Qed.

Lemma rstrip_fixed (s : string) : ends_with_space s = false → rstrip s = s.
Proof.
  induction s as [|c s IH]; [done|]. cbn [rstrip].
  destruct s as [|a s].
  - cbn. by intros ->.
  - intros Hs. change (ends_with_space (String a s) = false) in Hs.
    by rewrite (IH Hs).
Qed.

Lemma strip_fixed (s : string) : trimmed s → strip s = s.
Proof. intros [Hh Ht]. unfold strip. by rewrite lstrip_fixed, rstrip_fixed. Qed.

Lemma get_text_stripped b (bm : gmap string block) (t : string) :
  get_text b bm = Ok t → ∃ text, t = strip text.
Proof.
  rewrite get_text_collect. destruct (for_each _ _ _) as [text|]; cbn; [|done].
  intros [= <-]. by exists text.
Qed.

Lemma form_pair_stripped ix kb kt vt :
  form_pair ix kb = Ok (kt, vt) → trimmed kt ∧ trimmed vt.
Proof.
  unfold form_pair.
  destruct (get_text kb (block_map ix)) as [kt'|] eqn:Hk; [|done]. cbn.
  apply get_text_stripped in Hk as [? ->].
  destruct (find_value_block kb (value_map ix)) as [vb|]; cbn.
  - destruct (get_text vb (block_map ix)) as [vt'|] eqn:Hv; [|done]. cbn.
    apply get_text_stripped in Hv as [? ->]. intros [= <- <-].
    split; apply strip_trimmed.
  - intros [= <- <-]. split; [apply strip_trimmed|done].
Qed.

(** Every text held in [rows] is trimmed. *)
Lemma rows_trimmed blocks cells rows r row c t :
  for_each (rows_step blocks) ∅ cells = Ok rows →
  rows !! r = Some row → row !! c = Some t → trimmed t.
Proof.
  intros Hrows. revert r row c t.
  apply (for_each_invariant
           (λ rows, ∀ r row c t, rows !! r = Some row → row !! c = Some t →
                                 trimmed t)
           (rows_step blocks) ∅ cells rows); [|done|done].
  intros rows0 x rows1 _ IH [[_ ->]|(_ & text & _ & ->)]%rows_step_ok; [done|].
  intros r row c t.
  destruct (decide (default 1 (RowIndex x) = r)) as [<-|Hr].
  - rewrite lookup_insert_eq. intros [= <-].
    destruct (decide (default 1 (ColumnIndex x) = c)) as [<-|Hc].
    + rewrite lookup_insert_eq. intros [= <-]. apply strip_trimmed.
    + rewrite lookup_insert_ne by done.
      destruct (rows0 !! default 1 (RowIndex x)) as [row0|] eqn:Hrow0; [|done].
      cbn. apply (IH _ row0 c t Hrow0).
  - rewrite lookup_insert_ne by done. apply IH.
Qed.

Lemma table_of_trimmed blocks tb tbl :
  table_of blocks tb = Ok tbl →
  Forall (λ row, Forall trimmed row) tbl.
Proof.
  unfold table_of. destruct (Relationships tb) as [rels|]; [|by intros [= <-]].
  apply for_each_invariant; [|done].
  intros tbl0 rel tbl1 _ IH. rewrite table_rel_eq.
  destruct (String.eqb (Type_ rel) "CHILD"); [|by intros [= <-]].
  destruct (rel_rows blocks rel) as [rows|] eqn:Hrows; [|done]. cbn.
  intros [= <-]. apply Forall_app. split; [done|].
  apply Forall_forall. intros cells (r & -> & Hr)%list_elem_of_fmap.
  apply Forall_forall. intros t (c & -> & Hc)%list_elem_of_fmap.
  destruct (rows !! r) as [row|] eqn:Hrow; cbn; [|by rewrite lookup_empty].
  destruct (row !! c) as [t|] eqn:Ht; cbn; [|done].
  by eapply (rows_trimmed blocks (cells_of blocks (Ids rel))).
Qed.

(** X4. What the extractors hand out is trimmed.  Every key and every
    value of the forms mapping is non-empty, has no whitespace at either
    end, and is left as it is by [strip]; every cell string of every grid
    has no whitespace at either end. *)
Theorem output_trimmed (blocks : list block) (forms : gmap string string)
    (tables : list (list (list string))) (kt vt : string) :
  (extract_forms blocks = Ok forms → forms !! kt = Some vt →
   kt ≠ "" ∧ vt ≠ "" ∧ trimmed kt ∧ trimmed vt
   ∧ strip kt = kt ∧ strip vt = vt)
  ∧ (extract_tables blocks = Ok tables →
     Forall (λ grid, Forall (λ row, Forall trimmed row) grid) tables).
Proof.
  split.
  - unfold extract_forms. destruct (index_blocks blocks) as [ix|]; [|done]. cbn.
    intros Hloop Hl.
    destruct (forms_provenance ix _ forms kt vt Hloop Hl)
      as (? & ? & k & kb & _ & [??]%form_pair_stripped).
    do 4 (split; [done|]). split; by apply strip_fixed.
  - apply for_each_invariant; [|done].
    intros tables0 tb tables1 _ IH. unfold tables_step.
    destruct (table_of blocks tb) as [tbl|] eqn:Htb; [|done]. cbn.
    apply table_of_trimmed in Htb.
    destruct tbl as [|row tbl]; intros [= <-]; [done|].
    apply Forall_app. split; [done|].
    apply Forall_cons. split; [done|]. by apply Forall_nil.
Qed.

Definition untrimmed : list block :=
  [ key_block "k" [child ["w1"]; value ["v"]]; value_block "v" [child ["w2"]];
    table "t" [child ["c"]]; cell "c" 1 1 [child ["w1"; "w2"]];
    word "w1" "  Total "; word "w2" " 42  " ].

Lemma output_trimmed_witness :
  ("Total" ≠ "" ∧ "42" ≠ "" ∧ trimmed "Total" ∧ trimmed "42"
   ∧ strip "Total" = "Total" ∧ strip "42" = "42")
  ∧ Forall (λ grid, Forall (λ row, Forall trimmed row) grid)
      [[["Total   42"]]].
Proof.
  destruct (output_trimmed untrimmed {[ "Total" := "42" ]} [[["Total   42"]]]
              "Total" "42") as [Hf Ht].
  split; [apply Hf|apply Ht]; vm_compute; reflexivity.
Defined.

(** ** How much comes out *)

Lemma od_insert_length {V} k (v : V) (d : list (string * V)) :
  (length (od_insert k v d) ≤ S (length d))%nat.
Proof.
  induction d as [|[k' v'] d IH]; cbn; [lia|].
  destruct (String.eqb k' k); cbn; lia.
Qed.

Lemma key_map_length blocks ix0 ix :
  for_each index_block ix0 blocks = Ok ix →
  (length (key_map ix)
   ≤ length (key_map ix0) + length (List.filter is_key blocks))%nat.
Proof.
  revert ix0. induction blocks as [|b blocks IH]; intros ix0; cbn [for_each].
  - intros [= <-]. cbn. lia.
  - destruct (index_block ix0 b) as [ix1|] eqn:Hb; [|done]. cbn [mbind result_bind].
    intros Hrest%IH. apply index_block_ok in Hb as (_ & _ & Hkm).
    rewrite Hkm in Hrest. cbn [List.filter].
    destruct (is_key b); cbn [length]; [|lia].
    pose proof (od_insert_length (Id b) b (key_map ix0)). lia.
Qed.

Lemma forms_size ix items forms0 forms :
  for_each (forms_step ix) forms0 items = Ok forms →
  (size forms ≤ size forms0 + length items)%nat.
Proof.
  revert forms0. induction items as [|item items IH]; intros forms0;
    cbn [for_each].
  - intros [= <-]. lia.
  - destruct (forms_step ix forms0 item) as [forms1|] eqn:Hstep; [|done].
    cbn [mbind result_bind]. intros Hrest%IH.
    apply forms_step_ok in Hstep as (kt & vt & _ & ->). cbn [length].
    destruct (nonempty kt && nonempty vt); [|lia].
    rewrite map_size_insert in Hrest. destruct (forms0 !! kt); cbn in Hrest; lia.
Qed.

Lemma tables_length blocks tbs tables0 tables :
  for_each (tables_step blocks) tables0 tbs = Ok tables →
  (length tables ≤ length tables0 + length tbs)%nat.
Proof.
  revert tables0. induction tbs as [|tb tbs IH]; intros tables0; cbn [for_each].
  - intros [= <-]. lia.
  - destruct (tables_step blocks tables0 tb) as [tables1|] eqn:Hstep; [|done].
    cbn [mbind result_bind]. intros Hrest%IH. unfold tables_step in Hstep.
    destruct (table_of blocks tb) as [tbl|]; [|done]. cbn in Hstep.
    destruct tbl; injection Hstep as <-; rewrite ?length_app in Hrest;
      cbn [length] in *; lia.
Qed.

Lemma extract_forms_size blocks (forms : gmap string string) :
  extract_forms blocks = Ok forms →
  (size forms ≤ length (List.filter is_key blocks))%nat.
Proof.
  unfold extract_forms, index_blocks.
  destruct (for_each index_block empty_index blocks) as [ix|] eqn:Hix; [|done].
  cbn. intros Hsize%forms_size. apply key_map_length in Hix.
  rewrite map_size_empty in Hsize. cbn in Hix. lia.
Qed.

Lemma extract_tables_length blocks (tables : list (list (list string))) :
  extract_tables blocks = Ok tables →
  (length tables ≤ length (table_blocks blocks))%nat.
Proof. intros Hlen%tables_length. cbn in Hlen. lia. Qed.

(** X5. The forms mapping has at most one entry per key-side
    KEY_VALUE_SET block of the collection, and the tables sequence at most
    one grid per TABLE block. *)
Theorem output_counts (blocks : list block) (forms : gmap string string)
    (tables : list (list (list string))) :
  (extract_forms blocks = Ok forms →
   (size forms ≤ length (List.filter is_key blocks))%nat)
  ∧ (extract_tables blocks = Ok tables →
     (length tables ≤ length (table_blocks blocks))%nat).
Proof. split; [apply extract_forms_size|apply extract_tables_length]. Qed.

Lemma output_counts_witness :
  (size ({[ "Total" := "2" ]} : gmap string string)
   ≤ length (List.filter is_key same_key))%nat
  ∧ (length [[["A"; "B"]; ["C"]]] ≤ length (table_blocks grid3))%nat.
Proof.
  destruct (output_counts same_key {[ "Total" := "2" ]} [])
    as [Hforms _]; destruct (output_counts grid3 ∅ [[["A"; "B"]; ["C"]]])
    as [_ Htables].
  split; [apply Hforms|apply Htables]; vm_compute; reflexivity.
Defined.

(** ** Cells without indices *)

Lemma last_with_ext p q (l : list block) :
  (∀ b, b ∈ l → p b = q b) → last_with p l = last_with q l.
Proof.
  induction l as [|x l IH] using rev_ind; intros Hpq; [done|].
  rewrite !last_with_snoc, Hpq, IH; [done| |].
  - intros b Hb. apply Hpq. apply elem_of_app. by left.
  - apply elem_of_app. right. by left.
Qed.

Lemma last_with_none p (l : list block) :
  (∀ b, b ∈ l → p b = false) → last_with p l = None.
Proof.
  intros Hp. destruct (last_with p l) as [b|] eqn:Hl; [|done].
  apply last_with_elem in Hl as [Hb Hpb]. by rewrite Hp in Hpb.
Qed.

Lemma sorted_keys_singleton {V} (k : Z) (v : V) :
  sorted_keys ({[ k := v ]} : gmap Z V) = [k].
Proof. unfold sorted_keys. by rewrite map_to_list_singleton. Qed.

Lemma emit_rows_single (t : string) :
  emit_rows {[ 1 := {[ 1 := t ]} ]} = [[t]].
Proof.
  unfold emit_rows. rewrite sorted_keys_singleton. cbn.
  rewrite lookup_singleton_eq. cbn. unfold emit_row.
  rewrite sorted_keys_singleton. cbn. by rewrite lookup_singleton_eq.
Qed.

(** X6. ['RowIndex'] and ['ColumnIndex'] default to 1, so when none of the
    CELL blocks that a CHILD relationship lists has either, they all land
    on row 1, column 1: the relationship gives one row of one cell, with
    the text of the last such block of the collection, and the texts of the
    other cells are lost. *)
Theorem indexless_cells_collapse (blocks : list block) (rel : relationship)
    (rows : gmap Z (gmap Z string)) (cell : block) (text : string) :
  rel_rows blocks rel = Ok rows →
  (∀ b, b ∈ blocks → Id b ∈ Ids rel → BlockType b = "CELL" →
        RowIndex b = None ∧ ColumnIndex b = None) →
  is_last (λ b, bool_decide (Id b ∈ Ids rel) && is_cell b) blocks cell →
  cell_text_of blocks cell = Ok text →
  rows = {[ 1 := {[ 1 := strip text ]} ]}
  ∧ emit_rows rows = [[strip text]].
Proof.
  intros Hrows Hnone Hlast%last_with_is_last Htext.
  assert (∀ r c, rows !! r ≫= (.!! c)
                 = if decide (r = 1 ∧ c = 1) then Some (strip text) else None)
    as Hlook.
  { intros r c. unfold rel_rows in Hrows.
    rewrite (rows_lookup _ _ _ r c Hrows). unfold cells_of.
    rewrite last_with_filter. case_decide as Hrc.
    - destruct Hrc as [-> ->].
      rewrite (last_with_ext _ (λ b, bool_decide (Id b ∈ Ids rel) && is_cell b)).
      + rewrite Hlast. cbn. unfold cell_display. by rewrite Htext.
      + intros b Hb. destruct (bool_decide (Id b ∈ Ids rel)) eqn:Hid; [|done].
        cbn. unfold cell_at. destruct (is_cell b) eqn:Hc; [|done].
        apply bool_decide_eq_true in Hid. apply String.eqb_eq in Hc.
        by destruct (Hnone b Hb Hid Hc) as [-> ->].
    - rewrite last_with_none; [done|]. intros b Hb.
      destruct (bool_decide (Id b ∈ Ids rel)) eqn:Hid; [|done].
      cbn. unfold cell_at. destruct (is_cell b) eqn:Hc; [|done].
      apply bool_decide_eq_true in Hid. apply String.eqb_eq in Hc.
      destruct (Hnone b Hb Hid Hc) as [-> ->]. cbn [default andb].
      apply andb_false_iff. rewrite !Z.eqb_neq. lia. }
  assert (rows = {[ 1 := {[ 1 := strip text ]} ]}) as ->;
    [|split; [done|apply emit_rows_single]].
  apply map_eq. intros r. destruct (decide (r = 1)) as [->|Hr].
  - rewrite lookup_singleton_eq.
    pose proof (Hlook 1 1) as H11. rewrite decide_True in H11 by done.
    destruct (rows !! 1) as [row|] eqn:Hrow; [|done]. f_equal.
    apply map_eq. intros c. destruct (decide (c = 1)) as [->|Hc].
    + by rewrite lookup_singleton_eq.
    + rewrite lookup_singleton_ne by done.
      pose proof (Hlook 1 c) as H1c. rewrite Hrow in H1c.
      rewrite decide_False in H1c by (intros [_ ?]; done). done.
  - rewrite lookup_singleton_ne by done.
    destruct (rows !! r) as [row|] eqn:Hrow; [|done].
    pose proof (rows_nonempty _ _ _ _ _ Hrows Hrow) as Hne.
    destruct (map_choose row Hne) as (c & t & Hc).
    pose proof (Hlook r c) as Hrc. rewrite Hrow in Hrc. cbn in Hrc.
    rewrite Hc, decide_False in Hrc by (intros [? _]; done). done.
Qed.

Definition indexless : list block :=
  [ table "t" [child ["c1"; "c2"]];
    Block "c1" "CELL" None None None None (Some [child ["wa"]]);
    Block "c2" "CELL" None None None None (Some [child ["wb"]]);
    word "wa" "A"; word "wb" "B" ].

Lemma indexless_cells_collapse_witness :
  ({[ 1 := {[ 1 := "B" ]} ]} : gmap Z (gmap Z string))
  = {[ 1 := {[ 1 := strip "B " ]} ]}
  ∧ emit_rows {[ 1 := {[ 1 := "B" ]} ]} = [[strip "B "]].
Proof.
  apply (indexless_cells_collapse indexless (child ["c1"; "c2"])
           {[ 1 := {[ 1 := "B" ]} ]}
           (Block "c2" "CELL" None None None None (Some [child ["wb"]])) "B ").
  - vm_compute. reflexivity.
  - intros b Hb _ Hc.
    repeat (apply elem_of_cons in Hb as [->|Hb]); try done.
    by apply elem_of_nil in Hb.
  - apply last_with_is_last. vm_compute. reflexivity.
  - vm_compute. reflexivity.
Defined.


(** * The handler

    [lambda_handler] resolves a bucket and a key, calls Textract twice,
    runs the three extractors, stores the result in S3 and answers with a
    status code.  Modelling conventions, besides those above.
    - The Textract and S3 clients, [json.loads], the clock and the
      environment variable are parameters; every call of a client is
      logged, so that what the handler does and does not do can be stated.
    - [json.dumps] is not modelled: the stored object and the body of the
      answer are kept as records, and [str(e)] as the exception [e].
    - ['bucket'] and ['key'], where present and not [None], are strings.
    - [print] and [traceback.print_exc] are left out. *)

(** ** Names derived from the key *)

Definition dot : Ascii.ascii := Ascii.ascii_of_N 46.
Definition slash : Ascii.ascii := Ascii.ascii_of_N 47.

(** [s.split(sep)] for a separator of one character. *)
Fixpoint str_split (sep : Ascii.ascii) (s : string) : list string :=
  match s with
  | "" => [""]
  | String c s' =>
      if Ascii.eqb c sep then "" :: str_split sep s'
      else match str_split sep s' with
           | x :: l => String c x :: l
           | [] => [String c ""]
           end
  end.

(** [s.split(sep)[-1]]; the list is never empty, see [str_split_nonempty]. *)
Definition last_part (sep : Ascii.ascii) (s : string) : string :=
  List.last (str_split sep s) "".

(** [key.split('.')[-1]] *)
Definition file_type_of (key : string) : string := last_part dot key.

(** [f"results/{key.split('/')[-1]}.json"] *)
Definition result_key_of (key : string) : string :=
  "results/" +:+ last_part slash key +:+ ".json".

(** [f"s3://{bucket}/{key}"] *)
Definition s3_uri (bucket key : string) : string :=
  "s3://" +:+ bucket +:+ "/" +:+ key.

(** [s[:n]] *)
Fixpoint str_take (n : nat) (s : string) : string :=
  match n, s with
  | S n', String c s' => String c (str_take n' s')
  | _, _ => ""
  end.

(** [text[:500] + '...' if len(text) > 500 else text] *)
Definition preview_of (text : string) : string :=
  if (500 <? String.length text)%nat then str_take 500 text +:+ "..."
  else text.

(** [c] occurs in [s]. *)
Fixpoint has_char (c : Ascii.ascii) (s : string) : bool :=
  match s with
  | "" => false
  | String a s' => Ascii.eqb a c || has_char c s'
  end.

Lemma str_split_nonempty sep s : str_split sep s ≠ [].
Proof.
  induction s as [|c s IH]; [done|]. cbn.
  destruct (Ascii.eqb c sep); [done|]. by destruct (str_split sep s).
Qed.

(** Splitting at a separator between two strings splits both. *)
Lemma str_split_app sep (a b : string) :
  str_split sep (a +:+ String sep b) = str_split sep a ++ str_split sep b.
Proof.
  induction a as [|c a IH].
  - rewrite append_empty_l. cbn. by rewrite Ascii.eqb_refl.
  - rewrite append_cons. cbn [str_split]. rewrite IH.
    destruct (Ascii.eqb c sep); [done|].
    pose proof (str_split_nonempty sep a). by destruct (str_split sep a).
Qed.

Lemma str_split_whole sep s : has_char sep s = false → str_split sep s = [s].
Proof.
  induction s as [|c s IH]; [done|]. cbn.
  intros [Hc Hs]%orb_false_iff. rewrite Hc. by rewrite IH.
Qed.

(** A string has no separator, or a last one. *)
Lemma last_separator sep s :
  has_char sep s = false
  ∨ ∃ a b, s = a +:+ String sep b ∧ has_char sep b = false.
Proof.
  induction s as [|c s [Hs|(a & b & -> & Hb)]]; [by left| |].
  - destruct (Ascii.eqb c sep) eqn:Hc.
    + right. exists "", s. apply Ascii.eqb_eq in Hc as ->. done.
    + left. cbn. by rewrite Hc.
  - right. by exists (String c a), b.
Qed.

Lemma last_part_whole sep s : has_char sep s = false → last_part sep s = s.
Proof. intros Hs. unfold last_part. by rewrite str_split_whole. Qed.

Lemma last_part_app sep (a b : string) :
  has_char sep b = false → last_part sep (a +:+ String sep b) = b.
Proof.
  intros Hb. unfold last_part.
  rewrite str_split_app, (str_split_whole sep b Hb). apply last_last.
Qed.

Lemma join_split sep s : join (String sep "") (str_split sep s) = s.
Proof.
  induction s as [|c s IH]; [done|]. cbn [str_split].
  destruct (Ascii.eqb_spec c sep) as [->|Hc].
  - pose proof (str_split_nonempty sep s).
    destruct (str_split sep s) as [|x l] eqn:Hs; [done|].
    cbn [join]. cbn [join] in IH. by rewrite IH.
  - pose proof (str_split_nonempty sep s).
    destruct (str_split sep s) as [|x l] eqn:Hs; [done|].
    destruct l as [|y l]; cbn [join] in *; [by rewrite IH|].
    by rewrite append_cons, IH.
Qed.

(** X7. The file type recorded for a document is what follows the last dot
    of the key and has no dot in it; a key without a dot is its own file
    type, whole. *)
Theorem file_type_suffix (key : string) :
  has_char dot (file_type_of key) = false
  ∧ ((has_char dot key = false ∧ file_type_of key = key)
     ∨ ∃ stem, key = stem +:+ String dot (file_type_of key)).
Proof.
  unfold file_type_of.
  destruct (last_separator dot key) as [Hk|(a & b & -> & Hb)].
  - rewrite last_part_whole by done. split; [done|]. by left.
  - rewrite last_part_app by done. split; [done|]. right. by exists a.
Qed.

(** X8. The result is stored under [results/], a name and [.json], the
    name being what follows the last slash of the key, with no slash in it.
    The folders of the key are dropped: documents of one name in different
    folders have one result key. *)
Theorem result_key_flat (key dir name : string) :
  (∃ base, result_key_of key = "results/" +:+ base +:+ ".json"
     ∧ has_char slash base = false
     ∧ (key = base ∨ ∃ d, key = d +:+ String slash base))
  ∧ (has_char slash name = false →
     result_key_of (dir +:+ String slash name) = result_key_of name).
Proof.
  unfold result_key_of. split.
  - exists (last_part slash key). split; [done|].
    destruct (last_separator slash key) as [Hk|(a & b & -> & Hb)].
    + rewrite last_part_whole by done. split; [done|]. by left.
    + rewrite last_part_app by done. split; [done|]. right. by exists a.
  - intros Hn. by rewrite last_part_app, last_part_whole.
Qed.

Lemma result_key_flat_witness :
  result_key_of ("inbox/2024" +:+ String slash "scan.pdf")
  = result_key_of "scan.pdf".
Proof. by apply (result_key_flat "" "inbox/2024" "scan.pdf"). Defined.

Lemma length_append (a b : string) :
  String.length (a +:+ b) = (String.length a + String.length b)%nat.
Proof.
  induction a as [|c a IH]; [done|]. rewrite append_cons. cbn. by rewrite IH.
Qed.

Lemma str_take_length n s :
  String.length (str_take n s) = (n `min` String.length s)%nat.
Proof.
  revert s. induction n as [|n IH]; intros [|c s]; cbn; [done..|].
  by rewrite IH.
Qed.

Lemma str_take_prefix n s : ∃ rest, s = str_take n s +:+ rest.
Proof.
  revert s. induction n as [|n IH]; intros [|c s]; cbn;
    [by exists ""|by eexists|by exists ""|].
  destruct (IH s) as [rest Hrest]. exists rest.
  by rewrite append_cons, <- Hrest.
Qed.

(** X9. The preview of the answer is the extracted text itself when that
    has at most 500 characters; otherwise it is the first 500 characters
    of the text followed by three dots, 503 characters in all.  It is
    never longer than 503 characters. *)
Theorem preview_bounded (text : string) :
  (String.length (preview_of text) ≤ 503)%nat
  ∧ ((String.length text ≤ 500)%nat → preview_of text = text)
  ∧ ((500 < String.length text)%nat →
     preview_of text = str_take 500 text +:+ "..."
     ∧ String.length (preview_of text) = 503%nat
     ∧ ∃ rest, text = str_take 500 text +:+ rest).
Proof.
  assert (String.length (str_take 500 text +:+ "...")
          = (500 `min` String.length text + 3)%nat) as Hlen.
  { rewrite length_append, str_take_length. done. }
  unfold preview_of.
  destruct (Nat.ltb_spec 500 (String.length text)) as [Hlong|Hshort].
  - split; [lia|]. split; [lia|]. intros _. split; [done|].
    split; [lia|]. apply str_take_prefix.
  - split; [lia|]. split; [done|]. lia.
Qed.


Fixpoint str_repeat (c : Ascii.ascii) (n : nat) : string :=
  match n with
  | O => ""
  | S n' => String c (str_repeat c n')
  end.

Lemma preview_bounded_witness :
  preview_of "Invoice #123" = "Invoice #123"
  ∧ preview_of (str_repeat dot 501) = str_take 500 (str_repeat dot 501) +:+ "..."
  ∧ String.length (preview_of (str_repeat dot 501)) = 503%nat
  ∧ ∃ rest, str_repeat dot 501 = str_take 500 (str_repeat dot 501) +:+ rest.
Proof.
  destruct (preview_bounded "Invoice #123") as (_ & Hshort & _).
  destruct (preview_bounded (str_repeat dot 501)) as (_ & _ & Hlong).
  split; [apply Hshort; cbn; lia|apply Hlong; vm_compute; lia].
Defined.

(** ** Events, answers and calls *)

(** A dict that is read through [.get('bucket')] and [.get('key')]; a
    missing entry and [None] are both [None]. *)
Record params : Type := Params {
  bucket : option string;
  key : option string
}.

(** A JSON value: a dict, or anything else, which has no [.get]. *)
Inductive json : Type :=
| JDict (d : params)
| JOther.

(** [event['body']]: a [str] to be parsed, or a value as it is. *)
Inductive body_value : Type :=
| BodyStr (s : string)
| BodyJson (j : json).

(** The event: its ['body'], if it has one, and its own ['bucket'] and
    ['key']. *)
Record event : Type := Event {
  ev_body : option body_value;
  ev_top : params
}.

Record statistics_t : Type := Statistics {
  total_blocks : nat;
  words : nat;
  lines : nat;
  forms_found : nat;
  tables_found : nat
}.

Record document_info_t : Type := DocumentInfo {
  source : string;
  file_type : string;
  processed_at : string;
  page_count : nat
}.

(** The dict [result]. *)
Record document : Type := Document {
  document_info : document_info_t;
  extracted_text : string;
  forms : gmap string string;
  tables : list (list (list string));
  statistics : statistics_t
}.

(** What the handler can raise inside its [try]. *)
Inductive exn : Type :=
| ExtractError (e : error)
| AttributeError
| Exception (msg : string).

Inductive attempt (A : Type) : Type :=
| Returned (a : A)
| Raised (e : exn).
Arguments Returned {A} a.
Arguments Raised {A} e.

(** The body of an answer, before [json.dumps]. *)
Inductive response_body : Type :=
| MissingParameter
| Completed (result_location : string) (stats : statistics_t)
    (preview : string)
| Failure (e : exn).

Record response : Type := Response {
  statusCode : Z;
  headers : list (string * string);
  body : response_body
}.

(** A call of the Textract or of the S3 client. *)
Inductive call : Type :=
| DetectDocumentText (bucket key : string)
| AnalyzeDocument (bucket key : string)
| PutObject (bucket key : string) (body : document).

(** Code that calls the clients and may raise: the log of calls is passed
    along. *)
Definition io (A : Type) : Type := list call → attempt A * list call.

#[global] Instance io_ret : MRet io := λ A a log, (Returned a, log).
#[global] Instance io_bind : MBind io := λ A B f m log,
  match m log with
  | (Returned a, log') => f a log'
  | (Raised e, log') => (Raised e, log')
  end.

(** A call of a client, with what it comes back with. *)
Definition invoke {A} (c : call) (outcome : attempt A) : io A :=
  λ log, (outcome, log ++ [c]).

(** An extractor run inside the handler. *)
Definition lift {A} (r : result A) : io A :=
  λ log, (match r with Ok a => Returned a | Raise e => Raised (ExtractError e) end,
          log).

(** Truth value of a string that may be [None]. *)
Definition truthy (o : option string) : bool :=
  match o with
  | Some s => nonempty s
  | None => false
  end.

(** [a or b] *)
Definition or_else (a b : option string) : option string :=
  if truthy a then a else b.

(** [len([b for b in blocks if b['BlockType'] == ty])] *)
Definition count_type (ty : string) (blocks : list block) : nat :=
  length (List.filter (λ b, String.eqb (BlockType b) ty) blocks).

(** ** [lambda_handler] *)

Definition bad_request : response :=
  Response 400 [] MissingParameter.

Definition failure (e : exn) : response :=
  Response 500 [] (Failure e).

Definition completed (bucket result_key : string) (result : document)
  : response :=
  Response 200
    [("Content-Type", "application/json"); ("Access-Control-Allow-Origin", "*")]
    (Completed (s3_uri bucket result_key) (statistics result)
       (preview_of (extracted_text result))).

Section lambda_handler.
Variable json_loads : string → attempt json.
Variable detect_document_text : string → string → attempt (list block).
Variable analyze_document : string → string → attempt (list block).
Variable put_object : string → string → document → attempt unit.
(** [os.environ.get('DOCUMENT_BUCKET')] and [datetime.utcnow().isoformat()] *)
Variable DOCUMENT_BUCKET : option string.
Variable utcnow : string.

(** The bucket and the key of an event. *)
Definition resolve (ev : event) : attempt (option string * option string) :=
  match ev_body ev with
  | Some b =>
      match
        match b with
        | BodyStr s => json_loads s
        | BodyJson j => Returned j
        end
      with
      | Returned (JDict d) =>
          Returned (or_else (bucket d) DOCUMENT_BUCKET, key d)
      | Returned JOther => Raised AttributeError
      | Raised e => Raised e
      end
  | None =>
      Returned (or_else (bucket (ev_top ev)) DOCUMENT_BUCKET, key (ev_top ev))
  end.

(** The dict [result]. *)
Definition build_result (bucket key : string)
    (text_response : list block) (text : string)
    (forms : gmap string string) (tables : list (list (list string)))
  : document :=
  Document
    (DocumentInfo (s3_uri bucket key) (file_type_of key) utcnow
       (count_type "PAGE" text_response))
    text forms tables
    (Statistics (length text_response) (count_type "WORD" text_response)
       (count_type "LINE" text_response) (size forms) (length tables)).

(** The handler from the first Textract call on. *)
Definition process (bucket key : string) : io response :=
  text_response ←
    invoke (DetectDocumentText bucket key) (detect_document_text bucket key);
  text ← lift (extract_text text_response);
  analyze_response ←
    invoke (AnalyzeDocument bucket key) (analyze_document bucket key);
  forms ← lift (extract_forms analyze_response);
  tables ← lift (extract_tables analyze_response);
  let result := build_result bucket key text_response text forms tables in
  let result_key := result_key_of key in
  _ ← invoke (PutObject bucket result_key result)
        (put_object bucket result_key result);
  mret (completed bucket result_key result).

(** The body of the [try]; [not bucket or not key] holds of a bucket or key
    that is missing, [None] or empty. *)
Definition handle (ev : event) : io response :=
  λ log,
    match resolve ev with
    | Returned (Some b, Some k) =>
        if nonempty b && nonempty k then process b k log
        else (Returned bad_request, log)
    | Returned _ => (Returned bad_request, log)
    | Raised e => (Raised e, log)
    end.

(** The answer, and the log of calls after it. *)
Definition lambda_handler (ev : event) (log : list call)
  : response * list call :=
  match handle ev log with
  | (Returned r, log') => (r, log')
  | (Raised e, log') => (failure e, log')
  end.

(** How far [process] gets, step by step. *)
Lemma process_cases bucket key log :
  process bucket key log
  = let d := DetectDocumentText bucket key in
    let a := AnalyzeDocument bucket key in
    match detect_document_text bucket key with
    | Raised e => (Raised e, log ++ [d])
    | Returned text_response =>
        match extract_text text_response with
        | Raise e => (Raised (ExtractError e), log ++ [d])
        | Ok text =>
            match analyze_document bucket key with
            | Raised e => (Raised e, log ++ [d; a])
            | Returned analyze_response =>
                match extract_forms analyze_response with
                | Raise e => (Raised (ExtractError e), log ++ [d; a])
                | Ok forms =>
                    match extract_tables analyze_response with
                    | Raise e => (Raised (ExtractError e), log ++ [d; a])
                    | Ok tables =>
                        let result :=
                          build_result bucket key text_response text forms
                            tables in
                        let p := PutObject bucket (result_key_of key) result in
                        match put_object bucket (result_key_of key) result with
                        | Raised e => (Raised e, log ++ [d; a; p])
                        | Returned _ =>
                            (Returned
                               (completed bucket (result_key_of key) result),
                             log ++ [d; a; p])
                        end
                    end
                end
            end
        end
    end.
Proof.
  unfold process, mbind, io_bind, invoke, lift, mret, io_ret. cbv zeta.
  destruct (detect_document_text bucket key) as [text_response|]; [|done].
  destruct (extract_text text_response) as [text|]; [|done].
  rewrite <- !app_assoc. cbn [app].
  destruct (analyze_document bucket key) as [analyze_response|]; [|done].
  destruct (extract_forms analyze_response) as [forms|]; [|done].
  destruct (extract_tables analyze_response) as [tables|]; [|done].
  rewrite <- !app_assoc. cbn [app].
  by destruct (put_object _ _ _).
Qed.
End lambda_handler.

(** ** What the handler answers and calls *)

Lemma truthy_Some (o : option string) :
  truthy o = true ↔ ∃ s, o = Some s ∧ s ≠ "".
Proof.
  destruct o as [s|]; cbn.
  - rewrite nonempty_true. split; [by exists s|by intros (? & [= <-] & ?)].
  - split; [done|by intros (? & ? & ?)].
Qed.

Section handler_answers.
Variable json_loads : string → attempt json.
Variable detect_document_text : string → string → attempt (list block).
Variable analyze_document : string → string → attempt (list block).
Variable put_object : string → string → document → attempt unit.
Variable DOCUMENT_BUCKET : option string.
Variable utcnow : string.

Local Abbreviation handler :=
  (lambda_handler json_loads detect_document_text analyze_document put_object
     DOCUMENT_BUCKET utcnow).
Local Abbreviation resolved := (resolve json_loads DOCUMENT_BUCKET).
Local Abbreviation processed :=
  (process detect_document_text analyze_document put_object utcnow).

(** The handler on an event that gives a bucket and a key. *)
Lemma handler_process ev log b k :
  resolved ev = Returned (Some b, Some k) → b ≠ "" → k ≠ "" →
  handler ev log
  = match processed b k log with
    | (Returned r, log') => (r, log')
    | (Raised e, log') => (failure e, log')
    end.
Proof.
  intros Hev Hb%nonempty_true Hk%nonempty_true.
  unfold lambda_handler, handle. by rewrite Hev, Hb, Hk.
Qed.

(** The handler on an event that does not. *)
Lemma handler_bad_request ev log b k :
  resolved ev = Returned (b, k) → truthy b && truthy k = false →
  handler ev log = (bad_request, log).
Proof.
  intros Hev Hbk. unfold lambda_handler, handle. rewrite Hev.
  destruct b as [b|], k as [k|]; try done. cbn in Hbk. by rewrite Hbk.
Qed.

(** Every way the handler can go. *)
Lemma handler_cases ev log :
  (∃ e, resolved ev = Raised e ∧ handler ev log = (failure e, log))
  ∨ (∃ b k, resolved ev = Returned (b, k) ∧ truthy b && truthy k = false
            ∧ handler ev log = (bad_request, log))
  ∨ (∃ b k, resolved ev = Returned (Some b, Some k) ∧ b ≠ "" ∧ k ≠ ""
            ∧ handler ev log
              = match processed b k log with
                | (Returned r, log') => (r, log')
                | (Raised e, log') => (failure e, log')
                end).
Proof.
  destruct (resolved ev) as [[b k]|e] eqn:Hev.
  - destruct (truthy b && truthy k) eqn:Hbk.
    + right. right.
      destruct (truthy b) eqn:Hb, (truthy k) eqn:Hk; try done.
      apply truthy_Some in Hb as (sb & -> & ?).
      apply truthy_Some in Hk as (sk & -> & ?).
      exists sb, sk. do 3 (split; [done|]). by apply handler_process.
    + right. left. exists b, k. do 2 (split; [done|]).
      by apply (handler_bad_request ev log b k).
  - left. exists e. split; [done|]. unfold lambda_handler, handle.
    by rewrite Hev.
Qed.

(** X10. The handler answers 400 exactly when the event, read without an
    exception, gives no bucket (not even through [DOCUMENT_BUCKET]) or no
    key, an empty string counting as none.  It then has called neither
    Textract nor S3. *)
Theorem missing_parameter_iff (ev : event) (log : list call) :
  (statusCode (handler ev log).1 = 400
   ↔ ∃ b k, resolved ev = Returned (b, k) ∧ truthy b && truthy k = false)
  ∧ (statusCode (handler ev log).1 = 400 → handler ev log = (bad_request, log)).
Proof.
  destruct (handler_cases ev log)
    as [(e & Hev & ->)|[(b & k & Hev & Hbk & ->)|(b & k & Hev & Hb & Hk & ->)]].
  - split; [|done]. split; [done|]. rewrite Hev. by intros (? & ? & ? & _).
  - split; [|done]. split; [|done]. intros _. by exists b, k.
  - assert (statusCode
              (match processed b k log with
               | (Returned r, log') => (r, log')
               | (Raised e, log') => (failure e, log')
               end).1 ≠ 400) as Hne.
    { rewrite process_cases. cbv zeta.
      destruct (detect_document_text b k) as [text_response|]; [|done].
      destruct (extract_text text_response) as [text|]; [|done].
      destruct (analyze_document b k) as [analyze_response|]; [|done].
      destruct (extract_forms analyze_response) as [forms|]; [|done].
      destruct (extract_tables analyze_response) as [tables|]; [|done].
      by destruct (put_object _ _ _). }
    split; [|done]. split; [done|]. rewrite Hev.
    intros (? & ? & [= <- <-] & Hbk). cbn in Hbk.
    by rewrite (proj2 (nonempty_true b)), (proj2 (nonempty_true k)) in Hbk.
Qed.
(** What [process] has done when it returns, and when it raises. *)
Lemma process_outcome b k log out log' :
  processed b k log = (out, log') →
  match out with
  | Returned r =>
      ∃ text_response analyze_response text forms tables,
        detect_document_text b k = Returned text_response
        ∧ extract_text text_response = Ok text
        ∧ analyze_document b k = Returned analyze_response
        ∧ extract_forms analyze_response = Ok forms
        ∧ extract_tables analyze_response = Ok tables
        ∧ put_object b (result_key_of k)
            (build_result utcnow b k text_response text forms tables)
          = Returned ()
        ∧ log' = log ++ [DetectDocumentText b k; AnalyzeDocument b k;
                         PutObject b (result_key_of k)
                           (build_result utcnow b k text_response text forms
                              tables)]
        ∧ r = completed b (result_key_of k)
                (build_result utcnow b k text_response text forms tables)
  | Raised e =>
      ∃ calls, log' = log ++ calls
        ∧ ∀ b' k' doc, PutObject b' k' doc ∈ calls →
                       put_object b' k' doc = Raised e
  end.
Proof.
  rewrite process_cases. cbv zeta.
  assert (∀ b' k' doc (l : list call),
            l = [DetectDocumentText b k]
            ∨ l = [DetectDocumentText b k; AnalyzeDocument b k] →
            PutObject b' k' doc ∈ l → False) as Hnoput.
  { intros b' k' doc l [->| ->] Hin;
      repeat (apply elem_of_cons in Hin as [Hin|Hin]; [done|]);
      by apply elem_of_nil in Hin. }
  destruct (detect_document_text b k) as [text_response|e] eqn:Hd.
  2: { intros [= <- <-]. eexists. split; [done|].
       intros ??? Hin. destruct (Hnoput _ _ _ _ (or_introl eq_refl) Hin). }
  destruct (extract_text text_response) as [text|e] eqn:Ht.
  2: { intros [= <- <-]. eexists. split; [done|].
       intros ??? Hin. destruct (Hnoput _ _ _ _ (or_introl eq_refl) Hin). }
  destruct (analyze_document b k) as [analyze_response|e] eqn:Ha.
  2: { intros [= <- <-]. eexists. split; [done|].
       intros ??? Hin. destruct (Hnoput _ _ _ _ (or_intror eq_refl) Hin). }
  destruct (extract_forms analyze_response) as [forms|e] eqn:Hf.
  2: { intros [= <- <-]. eexists. split; [done|].
       intros ??? Hin. destruct (Hnoput _ _ _ _ (or_intror eq_refl) Hin). }
  destruct (extract_tables analyze_response) as [tables|e] eqn:Htb.
  2: { intros [= <- <-]. eexists. split; [done|].
       intros ??? Hin. destruct (Hnoput _ _ _ _ (or_intror eq_refl) Hin). }
  destruct (put_object _ _ _) as [[]|e] eqn:Hp; intros [= <- <-].
  - by exists text_response, analyze_response, text, forms, tables.
  - eexists. split; [done|]. intros b' k' doc Hin.
    repeat (apply elem_of_cons in Hin as [Hin|Hin]; [try done|]);
      [|by apply elem_of_nil in Hin].
    by injection Hin as -> -> ->.
Qed.

(** X11. The handler answers 200 exactly when the event gives a bucket and
    a key, both Textract calls return, the three extractors return and the
    S3 call returns.  It has then made these three calls and no other, in
    this order, each on the bucket of the event: the text detection and
    the analysis on the key, the write on the result key, with the
    reconstruction of the two responses as its body. *)
Theorem success_calls (ev : event) (log log' : list call) (resp : response) :
  (handler ev log = (resp, log') ∧ statusCode resp = 200)
  ↔ ∃ b k text_response analyze_response text forms tables,
      resolved ev = Returned (Some b, Some k) ∧ b ≠ "" ∧ k ≠ ""
      ∧ detect_document_text b k = Returned text_response
      ∧ extract_text text_response = Ok text
      ∧ analyze_document b k = Returned analyze_response
      ∧ extract_forms analyze_response = Ok forms
      ∧ extract_tables analyze_response = Ok tables
      ∧ put_object b (result_key_of k)
          (build_result utcnow b k text_response text forms tables)
        = Returned ()
      ∧ log' = log ++ [DetectDocumentText b k; AnalyzeDocument b k;
                       PutObject b (result_key_of k)
                         (build_result utcnow b k text_response text forms
                            tables)]
      ∧ resp = completed b (result_key_of k)
                 (build_result utcnow b k text_response text forms tables).
Proof.
  split.
  - intros [Hrun Hstatus].
    destruct (handler_cases ev log)
      as [(e & _ & Hh)|[(b & k & _ & _ & Hh)|(b & k & Hev & Hb & Hk & Hh)]];
      rewrite Hh in Hrun; [by injection Hrun as <- <-..|].
    destruct (processed b k log) as [[r|e] log1] eqn:Hp;
      injection Hrun as <- <-; [|done].
    apply process_outcome in Hp
      as (tr & ar & text & forms & tables & ? & ? & ? & ? & ? & ? & ? & ?).
    by exists b, k, tr, ar, text, forms, tables.
  - intros (b & k & tr & ar & text & forms & tables
            & Hev & Hb & Hk & Hd & Ht & Ha & Hf & Htb & Hp & -> & ->).
    split; [|done]. rewrite (handler_process ev log b k Hev Hb Hk).
    rewrite process_cases. cbv zeta. by rewrite Hd, Ht, Ha, Hf, Htb, Hp.
Qed.

(** X12. An invocation that is answered with 500 has stored nothing: S3
    was not called, or the call of S3 is what raised.  The calls it made
    are added to the log, and the exception is in the answer. *)
Theorem failure_stores_nothing (ev : event) (log log' : list call)
    (resp : response) :
  handler ev log = (resp, log') → statusCode resp = 500 →
  ∃ e calls, resp = failure e ∧ log' = log ++ calls
    ∧ ∀ b k doc, PutObject b k doc ∈ calls → put_object b k doc = Raised e.
Proof.
  intros Hrun Hstatus.
  destruct (handler_cases ev log)
    as [(e & _ & Hh)|[(b & k & _ & _ & Hh)|(b & k & Hev & Hb & Hk & Hh)]];
    rewrite Hh in Hrun.
  - injection Hrun as <- <-. exists e, []. rewrite app_nil_r.
    do 2 (split; [done|]). by intros ??? ?%elem_of_nil.
  - by injection Hrun as <- <-.
  - destruct (processed b k log) as [[r|e] log1] eqn:Hp;
      injection Hrun as <- <-.
    + apply process_outcome in Hp as (? & ? & ? & ? & ? & Hr).
      by destruct Hr as (_ & _ & _ & _ & _ & _ & _ & ->).
    + apply process_outcome in Hp as (calls & -> & Hput). by exists e, calls.
Qed.

(** X13. When a LINE block of the text detection response has no
    ['Text'], the handler answers 500 with [KeyError('Text')] after the
    one Textract call: the document is not analysed and nothing is
    stored. *)
Theorem textless_line_stops (ev : event) (log : list call) (b k : string)
    (text_response : list block) :
  resolved ev = Returned (Some b, Some k) → b ≠ "" → k ≠ "" →
  detect_document_text b k = Returned text_response →
  Exists (λ l, BlockType l = "LINE" ∧ Text l = None) text_response →
  handler ev log
  = (failure (ExtractError (KeyError "Text")), log ++ [DetectDocumentText b k]).
Proof.
  intros Hev Hb Hk Hd Hex. rewrite (handler_process ev log b k Hev Hb Hk).
  rewrite process_cases. cbv zeta. rewrite Hd. unfold extract_text.
  by rewrite extract_text_raises.
Qed.
(** Blocks of three types are counted apart. *)
Lemma count_type_apart (blocks : list block) :
  (count_type "PAGE" blocks + count_type "WORD" blocks
   + count_type "LINE" blocks ≤ length blocks)%nat.
Proof.
  unfold count_type. induction blocks as [|b blocks IH]; [done|].
  cbn [List.filter].
  destruct (String.eqb_spec (BlockType b) "PAGE") as [Hp|_],
    (String.eqb_spec (BlockType b) "WORD") as [Hw|_],
    (String.eqb_spec (BlockType b) "LINE") as [Hl|_];
    cbn [length]; try lia; congruence.
Qed.

(** X14. The statistics of a 200 answer are those of the stored document
    and are bounded by the two Textract responses: pages, words and lines
    together are at most the blocks of the text detection response, the
    forms found at most the key-side KEY_VALUE_SET blocks of the analysis
    response, and the tables found at most its TABLE blocks. *)
Theorem statistics_bounds (ev : event) (log log' : list call)
    (resp : response) (loc pv : string) (stats : statistics_t) :
  handler ev log = (resp, log') → body resp = Completed loc stats pv →
  ∃ b k doc text_response analyze_response,
    log' = log ++ [DetectDocumentText b k; AnalyzeDocument b k;
                   PutObject b (result_key_of k) doc]
    ∧ detect_document_text b k = Returned text_response
    ∧ analyze_document b k = Returned analyze_response
    ∧ statistics doc = stats
    ∧ total_blocks stats = length text_response
    ∧ (page_count (document_info doc) + words stats + lines stats
       ≤ total_blocks stats)%nat
    ∧ forms_found stats = size (forms doc)
    ∧ (forms_found stats ≤ length (List.filter is_key analyze_response))%nat
    ∧ tables_found stats = length (tables doc)
    ∧ (tables_found stats ≤ count_type "TABLE" analyze_response)%nat.
Proof.
  intros Hrun Hbody.
  destruct (handler_cases ev log)
    as [(e & _ & Hh)|[(b & k & _ & _ & Hh)|(b & k & Hev & Hb & Hk & Hh)]];
    rewrite Hh in Hrun; [by injection Hrun as <- <-..|].
  destruct (processed b k log) as [[r|e] log1] eqn:Hp;
    injection Hrun as <- <-; [|done].
  apply process_outcome in Hp
    as (tr & ar & text & forms & tables & Hd & Ht & Ha & Hf & Htb & _ & -> & ->).
  injection Hbody as <- <- <-.
  exists b, k, (build_result utcnow b k tr text forms tables), tr, ar.
  do 5 (split; [done|]). split; [apply count_type_apart|].
  split; [done|]. split; [by apply extract_forms_size|].
  split; [done|]. by apply extract_tables_length.
Qed.
(** X15. An event that has a ['body'] is read from the body alone: the
    bucket and the key that the event itself carries change nothing.  A
    body that is not a dict, given as it is or as a string that parses to
    one, is answered with 500 for the missing [.get], with no call made. *)
Theorem body_overrides_event (b : body_value) (top top' : params)
    (s : string) (log : list call) :
  handler (Event (Some b) top) log = handler (Event (Some b) top') log
  ∧ handler (Event (Some (BodyJson JOther)) top) log
    = (failure AttributeError, log)
  ∧ (json_loads s = Returned JOther →
     handler (Event (Some (BodyStr s)) top) log = (failure AttributeError, log)).
Proof.
  split; [done|]. split; [done|]. intros Hs.
  unfold lambda_handler, handle, resolve. cbn. by rewrite Hs.
Qed.
End handler_answers.

(** ** The handler on examples *)

Definition parse_nothing (s : string) : attempt json :=
  if String.eqb s "[]" then Returned JOther
  else Raised (Exception "Expecting value").

Definition textract_invoice (b k : string) : attempt (list block) :=
  Returned invoice.

Definition textract_down (b k : string) : attempt (list block) :=
  Raised (Exception "ThrottlingException").

Definition textract_bare_line (b k : string) : attempt (list block) :=
  Returned [bare_line].

Definition s3_accepts (b k : string) (d : document) : attempt unit :=
  Returned ().

Definition direct_event : event :=
  Event None (Params (Some "docs") (Some "inbox/invoice.pdf")).

Definition invoice_document : document :=
  build_result "2024-01-01T00:00:00" "docs" "inbox/invoice.pdf" invoice
    "Invoice #123" {[ "Total" := "42" ]} [].

Definition invoice_calls : list call :=
  [ DetectDocumentText "docs" "inbox/invoice.pdf";
    AnalyzeDocument "docs" "inbox/invoice.pdf";
    PutObject "docs" "results/invoice.pdf.json" invoice_document ].

Lemma success_calls_witness :
  lambda_handler parse_nothing textract_invoice textract_invoice s3_accepts
    None "2024-01-01T00:00:00" direct_event []
  = (completed "docs" "results/invoice.pdf.json" invoice_document,
     invoice_calls)
  ∧ statusCode (completed "docs" "results/invoice.pdf.json" invoice_document)
    = 200.
Proof.
  apply (success_calls parse_nothing textract_invoice textract_invoice
           s3_accepts None "2024-01-01T00:00:00" direct_event []).
  exists "docs", "inbox/invoice.pdf", invoice, invoice, "Invoice #123",
    {[ "Total" := "42" ]}, [].
  repeat split; try done; vm_compute; reflexivity.
Defined.

Lemma failure_stores_nothing_witness :
  ∃ e calls,
    failure (Exception "ThrottlingException") = failure e
    ∧ [DetectDocumentText "docs" "inbox/invoice.pdf"] = [] ++ calls
    ∧ ∀ b k doc, PutObject b k doc ∈ calls → s3_accepts b k doc = Raised e.
Proof.
  apply (failure_stores_nothing parse_nothing textract_down textract_invoice
           s3_accepts None "2024-01-01T00:00:00" direct_event []);
    reflexivity.
Defined.

Lemma textless_line_stops_witness :
  lambda_handler parse_nothing textract_bare_line textract_invoice s3_accepts
    None "2024-01-01T00:00:00" direct_event []
  = (failure (ExtractError (KeyError "Text")),
     [] ++ [DetectDocumentText "docs" "inbox/invoice.pdf"]).
Proof.
  apply (textless_line_stops parse_nothing textract_bare_line textract_invoice
           s3_accepts None "2024-01-01T00:00:00" direct_event []
           "docs" "inbox/invoice.pdf" [bare_line]); try done.
  apply Exists_cons_hd. by split.
Defined.

Lemma statistics_bounds_witness :
  ∃ b k doc text_response analyze_response,
    invoice_calls
    = [] ++ [DetectDocumentText b k; AnalyzeDocument b k;
             PutObject b (result_key_of k) doc]
    ∧ textract_invoice b k = Returned text_response
    ∧ textract_invoice b k = Returned analyze_response
    ∧ statistics doc = statistics invoice_document
    ∧ total_blocks (statistics invoice_document) = length text_response
    ∧ (page_count (document_info doc) + words (statistics invoice_document)
       + lines (statistics invoice_document)
       ≤ total_blocks (statistics invoice_document))%nat
    ∧ forms_found (statistics invoice_document) = size (forms doc)
    ∧ (forms_found (statistics invoice_document)
       ≤ length (List.filter is_key analyze_response))%nat
    ∧ tables_found (statistics invoice_document) = length (tables doc)
    ∧ (tables_found (statistics invoice_document)
       ≤ count_type "TABLE" analyze_response)%nat.
Proof.
  apply (statistics_bounds parse_nothing textract_invoice textract_invoice
           s3_accepts None "2024-01-01T00:00:00" direct_event [] invoice_calls
           (completed "docs" "results/invoice.pdf.json" invoice_document)
           (s3_uri "docs" "results/invoice.pdf.json")
           (preview_of "Invoice #123")); vm_compute; reflexivity.
Defined.

Lemma body_overrides_event_witness :
  lambda_handler parse_nothing textract_invoice textract_invoice s3_accepts
    None "2024-01-01T00:00:00"
    (Event (Some (BodyStr "[]")) (Params (Some "docs") (Some "a.pdf"))) []
  = (failure AttributeError, []).
Proof.
  by apply (body_overrides_event parse_nothing textract_invoice
              textract_invoice s3_accepts None "2024-01-01T00:00:00"
              (BodyStr "[]") (Params None None) (Params None None) "[]" []).
Defined.

Lemma missing_parameter_iff_witness :
  lambda_handler parse_nothing textract_invoice textract_invoice s3_accepts
    (Some "docs") "2024-01-01T00:00:00"
    (Event None (Params (Some "other") None)) invoice_calls
  = (bad_request, invoice_calls).
Proof.
  destruct (missing_parameter_iff parse_nothing textract_invoice
              textract_invoice s3_accepts (Some "docs") "2024-01-01T00:00:00"
              (Event None (Params (Some "other") None)) invoice_calls)
    as [_ Hno_call].
  by apply Hno_call.
Defined.

(** ** The assembled text, line by line *)

Lemma split_join sep (ts : list string) :
  ts ≠ [] → Forall (λ t, has_char sep t = false) ts →
  str_split sep (join (String sep "") ts) = ts.
Proof.
  induction ts as [|t ts IH]; [done|]. intros _ [Ht Hts]%Forall_cons.
  destruct ts as [|t' ts]; [by apply str_split_whole|].
  change (join (String sep "") (t :: t' :: ts))
    with (t +:+ String sep "" +:+ join (String sep "") (t' :: ts)).
  rewrite append_cons, append_empty_l, str_split_app.
  rewrite (str_split_whole sep t Ht), IH by done. done.
Qed.

(** X16. When there is a LINE block and no LINE text has a line feed in
    it, the assembled text splits at the line feeds back into the LINE
    texts: it has as many lines as the collection has LINE blocks, an empty
    text giving an empty line. *)
Theorem text_splits_back (blocks : list block) (ts : list string) :
  Text <$> line_blocks blocks = Some <$> ts →
  ts ≠ [] →
  Forall (λ t, has_char linefeed t = false) ts →
  ∃ text, extract_text blocks = Ok text
    ∧ str_split linefeed text = ts
    ∧ length (str_split linefeed text) = count_type "LINE" blocks.
Proof.
  intros Hts Hne Hlf. exists (join newline ts). unfold extract_text.
  rewrite (extract_text_loop blocks [] ts Hts). split; [done|].
  unfold newline. fold linefeed. rewrite split_join by done. split; [done|].
  apply (f_equal length) in Hts. by rewrite !length_fmap in Hts.
Qed.

Lemma text_splits_back_witness :
  ∃ text, extract_text [line "a" "one"; word "w" "x"; line "b" ""; line "c" "two"]
          = Ok text
    ∧ str_split linefeed text = ["one"; ""; "two"]
    ∧ length (str_split linefeed text)
      = count_type "LINE" [line "a" "one"; word "w" "x"; line "b" ""; line "c" "two"].
Proof.
  apply (text_splits_back
           [line "a" "one"; word "w" "x"; line "b" ""; line "c" "two"]
           ["one"; ""; "two"]); [done..|].
  by repeat constructor.
Defined.

(** ** Blocks that take no part *)

(** A block of a type that no extractor reads: a PAGE, a
    SELECTION_ELEMENT, ... *)
Definition bystander (p : block) : Prop :=
  BlockType p ∉ ["LINE"; "WORD"; "KEY_VALUE_SET"; "TABLE"; "CELL"].

Lemma bystander_types p ty :
  bystander p → ty ∈ ["LINE"; "WORD"; "KEY_VALUE_SET"; "TABLE"; "CELL"] →
  String.eqb (BlockType p) ty = false.
Proof. intros Hp Hty. apply String.eqb_neq. intros <-. by apply Hp. Qed.

Lemma find_append {A} (f : A → bool) (l1 l2 : list A) :
  List.find f (l1 ++ l2)
  = match List.find f l1 with
    | Some x => Some x
    | None => List.find f l2
    end.
Proof. induction l1 as [|x l1 IH]; [done|]. cbn. by destruct (f x). Qed.

Section bystander.
Variables (l1 l2 : list block) (p : block).
Hypothesis p_bystander : bystander p.
Hypothesis p_fresh : Id p ∉ Id <$> (l1 ++ l2).

Lemma bystander_eqb ty :
  ty ∈ ["LINE"; "WORD"; "KEY_VALUE_SET"; "TABLE"; "CELL"] →
  String.eqb (BlockType p) ty = false.
Proof. by apply bystander_types. Qed.

Lemma fresh_other b : b ∈ l1 ++ l2 → Id b ≠ Id p.
Proof. intros Hb Heq. apply p_fresh. rewrite <- Heq. by apply list_elem_of_fmap_2. Qed.

Lemma bystander_text :
  extract_text (l1 ++ p :: l2) = extract_text (l1 ++ l2).
Proof.
  unfold extract_text. rewrite !for_each_app.
  destruct (for_each extract_text_step [] l1) as [acc|]; [|done].
  cbn [mbind result_bind for_each]. rewrite extract_text_step_eq.
  unfold is_line. rewrite bystander_eqb by set_solver. done.
Qed.

(** The index with the bystander filed as well. *)
Definition with_bystander (ix : index) : index :=
  Index (key_map ix) (value_map ix) (<[Id p := p]> (block_map ix)).

Lemma bystander_index :
  index_blocks (l1 ++ p :: l2)
  = result_map with_bystander (index_blocks (l1 ++ l2)).
Proof.
  unfold index_blocks. rewrite !for_each_app.
  destruct (for_each index_block empty_index l1) as [ix1|]; [|done].
  cbn [mbind result_bind for_each]. rewrite (index_block_eq ix1 p).
  unfold is_kvs. rewrite bystander_eqb by set_solver. cbn.
  apply (for_each_sim index_block index_block with_bystander).
  intros ix b Hb. rewrite !index_block_eq. unfold with_bystander. cbn.
  assert (Id b ≠ Id p) as Hne.
  { apply fresh_other. apply elem_of_app. by right. }
  destruct (is_kvs b); cbn; [|by rewrite insert_insert_ne].
  destruct (EntityTypes b) as [roles|]; cbn; [|done].
  destruct (bool_decide ("KEY" ∈ roles)); cbn; by rewrite insert_insert_ne.
Qed.

Lemma bystander_collect (lk lk' : string → option block) acc ids :
  lk (Id p) = None → lk' (Id p) = Some p →
  (∀ id, id ≠ Id p → lk' id = lk id) →
  for_each (collect_id lk') acc ids = for_each (collect_id lk) acc ids.
Proof.
  intros Hnone Hsome Hother. apply for_each_ext. intros text id _.
  rewrite !collect_id_eq. destruct (decide (id = Id p)) as [->|Hid].
  - rewrite Hnone, Hsome. unfold is_word.
    by rewrite bystander_eqb by set_solver.
  - by rewrite Hother.
Qed.

Lemma bystander_forms :
  extract_forms (l1 ++ p :: l2) = extract_forms (l1 ++ l2).
Proof.
  unfold extract_forms. rewrite bystander_index.
  destruct (index_blocks (l1 ++ l2)) as [ix|] eqn:Hix; [|done]. cbn.
  assert (∀ b, get_text b (<[Id p := p]> (block_map ix))
               = get_text b (block_map ix)) as Htext.
  { intros b. rewrite !get_text_collect.
    rewrite (bystander_collect (λ id, block_map ix !! id)); [done| | |].
    - destruct (index_blocks_lookup _ ix (Id p) Hix) as [-> _].
      apply last_with_none. intros b' Hb'. apply has_id_false.
      by apply fresh_other.
    - apply lookup_insert_eq.
    - intros id Hid. by rewrite lookup_insert_ne. }
  apply for_each_ext. intros forms [k kb] _. unfold forms_step, form_pair.
  cbn [snd with_bystander value_map block_map]. rewrite Htext.
  destruct (find_value_block kb (value_map ix)); by rewrite ?Htext.
Qed.

Lemma bystander_find_block id :
  id ≠ Id p → find_block (l1 ++ p :: l2) id = find_block (l1 ++ l2) id.
Proof.
  intros Hid. unfold find_block. rewrite !find_append. cbn.
  by rewrite (proj2 (String.eqb_neq (Id p) id)).
Qed.

Lemma bystander_cell_text c :
  cell_text_of (l1 ++ p :: l2) c = cell_text_of (l1 ++ l2) c.
Proof.
  rewrite !cell_text_collect. apply bystander_collect.
  - destruct (find_block (l1 ++ l2) (Id p)) as [b|] eqn:Hb; [|done].
    apply find_block_elem in Hb as [Hb Hid]. by apply fresh_other in Hb.
  - unfold find_block. rewrite find_append.
    destruct (List.find _ l1) as [b|] eqn:Hb.
    + apply find_some_elem in Hb as [Hb Hid]. apply String.eqb_eq in Hid.
      exfalso. apply (fresh_other b); [|done]. apply elem_of_app. by left.
    + cbn. by rewrite String.eqb_refl.
  - apply bystander_find_block.
Qed.

Lemma bystander_rel_rows rel :
  rel_rows (l1 ++ p :: l2) rel = rel_rows (l1 ++ l2) rel.
Proof.
  unfold rel_rows.
  rewrite (for_each_filter is_cell (rows_step (l1 ++ p :: l2))),
    (for_each_filter is_cell (rows_step (l1 ++ l2))).
  - assert (List.filter is_cell (cells_of (l1 ++ p :: l2) (Ids rel))
            = List.filter is_cell (cells_of (l1 ++ l2) (Ids rel))) as ->.
    { unfold cells_of. rewrite !List.filter_app. cbn [List.filter].
      destruct (bool_decide (Id p ∈ Ids rel)); [|done]. cbn [List.filter].
      unfold is_cell at 2. by rewrite bystander_eqb by set_solver. }
    apply for_each_ext. intros rows c _. unfold rows_step.
    by rewrite bystander_cell_text.
  - intros rows c Hc. unfold rows_step. unfold is_cell in Hc. by rewrite Hc.
  - intros rows c Hc. unfold rows_step. unfold is_cell in Hc. by rewrite Hc.
Qed.

Lemma bystander_tables :
  extract_tables (l1 ++ p :: l2) = extract_tables (l1 ++ l2).
Proof.
  unfold extract_tables, extract_tables_from.
  assert (table_blocks (l1 ++ p :: l2) = table_blocks (l1 ++ l2)) as ->.
  { unfold table_blocks. rewrite !List.filter_app. cbn [List.filter].
    by rewrite bystander_eqb by set_solver. }
  apply for_each_ext. intros tables tb _. unfold tables_step.
  rewrite !table_of_child_rels.
  assert (∀ rels, all_ok (rel_rows (l1 ++ p :: l2)) rels
                  = all_ok (rel_rows (l1 ++ l2)) rels) as ->; [|done].
  induction rels as [|rel rels IH]; [done|]. cbn.
  by rewrite bystander_rel_rows, IH.
Qed.
End bystander.

(** X17. A block of a type that no extractor reads (a PAGE, a
    SELECTION_ELEMENT), whose id no other block bears, takes no part in the
    reconstruction: wherever it stands in the collection, and whatever
    lists its id, the text, the forms and the tables are what they are
    without it. *)
Theorem bystander_ignored (l1 l2 : list block) (p : block) :
  bystander p → Id p ∉ Id <$> (l1 ++ l2) →
  extract_text (l1 ++ p :: l2) = extract_text (l1 ++ l2)
  ∧ extract_forms (l1 ++ p :: l2) = extract_forms (l1 ++ l2)
  ∧ extract_tables (l1 ++ p :: l2) = extract_tables (l1 ++ l2).
Proof.
  intros Hp Hfresh. split; [by apply bystander_text|].
  split; [by apply bystander_forms|by apply bystander_tables].
Qed.

Definition page : block := Block "p1" "PAGE" None None None None None.

Lemma bystander_ignored_witness :
  extract_text ([] ++ page :: invoice) = extract_text ([] ++ invoice)
  ∧ extract_forms ([] ++ page :: invoice) = extract_forms ([] ++ invoice)
  ∧ extract_tables ([] ++ page :: invoice) = extract_tables ([] ++ invoice).
Proof.
  apply (bystander_ignored [] invoice page).
  - unfold bystander. cbn. intros Hin.
    repeat (apply elem_of_cons in Hin as [Hin|Hin]; [discriminate Hin|]).
    by apply elem_of_nil in Hin.
  - cbn. intros Hin.
    repeat (apply elem_of_cons in Hin as [Hin|Hin]; [discriminate Hin|]).
    by apply elem_of_nil in Hin.
Defined.
